(** * Session & Command Engine of the WhatsApp relay bot

    A shallow embedding of the session store of [index.js], the completion
    client of [openai-client.js] and the command engine of
    [commands_Version3.js], with the properties of the design document
    proved or refuted on it.

    How the program is modelled:
    - a string is its sequence of UTF-16 code units, so [trim], [split],
      [includes] and the regular expressions are what they are in
      JavaScript; [toLowerCase] is modelled on the letters A-Z;
    - the two module-level maps, [store] and [POLLS], are finite maps that
      the operations take and give back; an object that the source changes in
      place (a session, a poll and its arrays of voters) is written back
      into its map at every change;
    - an [async] function is a computation on the state that ends normally
      or by throwing; what it does to the outside (a call of
      [context.sendText], a call of a handler, a [console.error]) is
      appended to a trace; one handler runs from start to end, nothing else
      runs between two of its steps;
    - the clock, the random numbers, the completion service, the outcome of
      a send and the handlers that only talk to the network or the disk
      are inputs. *)

From Stdlib Require Import ZArith NArith String Ascii List Lia.
From Stdlib Require Import DecimalString DecimalPos.
From stdpp Require Import base option list gmap.

Local Open Scope Z_scope.

(** ** JavaScript strings

    A JavaScript string is a sequence of UTF-16 code units; [includes],
    [indexOf], [slice], [split], [startsWith] and the regular expressions
    used here all work on code units. *)

Abbreviation jsstring := (list N).

(** Literals of the source that are pure ASCII are written as Rocq strings. *)
Definition js (s : string) : jsstring :=
  map N_of_ascii (list_ascii_of_string s).

Module JS.

(** [WhiteSpace] and [LineTerminator] of ECMAScript: what [trim] strips and
    what [\s] matches. *)
Definition isWhite (c : N) : bool :=
  ((9 <=? c) && (c <=? 13) || (c =? 32) || (c =? 160) || (c =? 5760)
   || (8192 <=? c) && (c <=? 8202) || (c =? 8232) || (c =? 8233)
   || (c =? 8239) || (c =? 8287) || (c =? 12288) || (c =? 65279))%N.

Fixpoint trimStart (s : jsstring) : jsstring :=
  match s with
  | c :: s' => if isWhite c then trimStart s' else s
  | [] => []
  end.

Definition trimEnd (s : jsstring) : jsstring := rev (trimStart (rev s)).

(** [s.trim()] *)
Definition trim (s : jsstring) : jsstring := trimEnd (trimStart s).

(** [s.toLowerCase()]. The letters A-Z go to a-z; the Kelvin sign U+212A
    goes to [k] and the dotted capital I, U+0130, to [i] and the combining
    dot U+0307: these are the code units whose lower case has an ASCII code
    unit in it. The other code units are left as they are; their lower case
    has no ASCII code unit, so whether a lower-cased text contains, or is,
    an ASCII word (a prohibited term, the name of a command) is as in
    JavaScript. *)
Definition lower1 (c : N) : jsstring :=
  if ((65 <=? c) && (c <=? 90))%N then [(c + 32)%N]
  else if (c =? 8490)%N then [107%N]
  else if (c =? 304)%N then [105%N; 775%N]
  else [c].

Definition toLowerCase (s : jsstring) : jsstring := flat_map lower1 s.

(** [s.startsWith(p)] *)
Fixpoint startsWith (p s : jsstring) : bool :=
  match p, s with
  | [], _ => true
  | a :: p', b :: s' => (a =? b)%N && startsWith p' s'
  | _ :: _, [] => false
  end.

(** [s.includes(p)] *)
Fixpoint includes (s p : jsstring) : bool :=
  startsWith p s ||
  match s with
  | [] => false
  | _ :: s' => includes s' p
  end.

(** [s.split(/\s+/)]: the pieces between maximal runs of white space; a
    leading or trailing run leaves an empty piece, and the empty string
    splits into one empty piece. [inws] tells that the previous code unit
    was white space, [cur] is the piece being read. *)
Fixpoint split_go (inws : bool) (cur : jsstring) (s : jsstring)
  : list jsstring :=
  match s with
  | [] => [cur]
  | c :: s' =>
      if isWhite c
      then (if inws then split_go true cur s' else cur :: split_go true [] s')
      else split_go false (cur ++ [c]) s'
  end.

Definition split_ws (s : jsstring) : list jsstring := split_go false [] s.

(** [a.join(sep)] *)
Fixpoint join (sep : jsstring) (a : list jsstring) : jsstring :=
  match a with
  | [] => []
  | [x] => x
  | x :: a' => x ++ sep ++ join sep a'
  end.

(** [a.slice(start)] for an integer [start]: a negative [start] counts from
    the end, and [-0] is [0]. *)
Definition slice_from {A} (start : Z) (a : list A) : list A :=
  let len := Z.of_nat (length a) in
  let k := if start <? 0 then Z.max (len + start) 0 else Z.min start len in
  drop (Z.to_nat k) a.

(** The longest prefix whose elements satisfy [f], and what follows it. *)
Fixpoint takeWhile {A} (f : A -> bool) (l : list A) : list A :=
  match l with
  | x :: l' => if f x then x :: takeWhile f l' else []
  | [] => []
  end.

Fixpoint dropWhile {A} (f : A -> bool) (l : list A) : list A :=
  match l with
  | x :: l' => if f x then dropWhile f l' else l
  | [] => []
  end.

(** Truthiness of a string: [!s] holds of the empty string only. *)
Definition truthy (s : jsstring) : bool :=
  match s with [] => false | _ => true end.

End JS.

(** ** The session store ([index.js], lines 147-218) *)

Inductive Role := system | user | assistant.

Record Message := mkMessage { role : Role; content : jsstring }.

Record Session := mkSession { messages : list Message; lastSeen : Z }.

#[global] Instance Role_eq_dec : EqDecision Role.
Proof. solve_decision. Defined.

#[global] Instance Message_eq_dec : EqDecision Message.
Proof. solve_decision. Defined.

(** The persona preamble every session starts with. *)
Definition SYSTEM : Message :=
  mkMessage system
    (js "You are a helpful WhatsApp assistant. "
       ++ js "Keep replies concise and friendly. "
       ++ js "Use casual, short messages suitable for WhatsApp.").

Module SessionStore.

Section Store.

(** [maxMessages]: [parseInt(process.env.SESSION_MAX_MESSAGES || '12', 10)].
    A value that does not parse gives NaN, which [slice] reads as [0]. *)
Variable maxMessages : Z.

(** [_ensureSession(user)], with the reading of the clock as [now]. *)
Definition _ensureSession (now : Z) (u : jsstring)
    (store : gmap jsstring Session) : gmap jsstring Session * Session :=
  match store !! u with
  | Some s => (store, s)
  | None =>
      let s := mkSession [SYSTEM] now in
      (<[u := s]> store, s)
  end.

(** [_trim(session)]: the first message, then the last [maxMessages] of the
    others. The array of a session is never empty, so [take 1] is
    [session.messages[0]]. *)
Definition _trim (s : Session) : Session :=
  let system := take 1 (messages s) in
  let rest := drop 1 (messages s) in
  let trimmed := JS.slice_from (- maxMessages) rest in
  mkSession (system ++ trimmed) (lastSeen s).

(** The body the two appends share. [Date.now()] is read for a session
    that is created and again for [lastSeen]; the second reading replaces
    the first, and [now] stands for it. *)
Definition append (r : Role) (now : Z) (u text : jsstring)
    (store : gmap jsstring Session) : gmap jsstring Session :=
  if negb (JS.truthy text) then store
  else
    let '(store1, s) := _ensureSession now u store in
    let s1 := mkSession (messages s ++ [mkMessage r text]) now in
    <[u := _trim s1]> store1.

(** [appendUserMessage(user, text)] *)
Definition appendUserMessage := append user.

(** [appendAssistantMessage(user, text)] *)
Definition appendAssistantMessage := append assistant.

(** [getConversationForOpenAI(user)]: a copy of the messages; the session is
    created when it does not exist. *)
Definition getConversationForOpenAI (now : Z) (u : jsstring)
    (store : gmap jsstring Session) : gmap jsstring Session * list Message :=
  let '(store1, s) := _ensureSession now u store in
  (store1, map (fun m => mkMessage (role m) (content m)) (messages s)).

End Store.

End SessionStore.


(** ** Exceptions and completions *)

Inductive Exn :=
| Error (message : jsstring)   (* [throw new Error(message)] *)
| TypeError                    (* a call or a property read that the value
                                  does not allow *)
| Rejection.                   (* a rejected promise of an outbound call *)

Inductive Completion (A : Type) :=
| Normal (a : A)
| Throw (e : Exn).

Arguments Normal {A} a.
Arguments Throw {A} e.

(** ** The completion client ([openai-client.js]) *)

Module OpenAI.

(** What [axios.post] gives back: a rejection (transport error, timeout,
    error status), or a response, of which only
    [resp.data?.choices?.[0]?.message?.content] is read; [None] stands for a
    chain that ends in [undefined] or [null]. *)
Inductive AxiosResult :=
| Rejected
| Responded (content : option jsstring).

Definition no_content : jsstring := js "No content in OpenAI response".

(** [generateReply(messages)], with the completion service as [post]. *)
Definition generateReply (post : list Message -> AxiosResult)
    (msgs : list Message) : Completion jsstring :=
  match post msgs with
  | Rejected => Throw Rejection
  | Responded None => Throw (Error no_content)
  | Responded (Some c) =>
      if negb (JS.truthy c) then Throw (Error no_content)
      else Normal (JS.trim c)
  end.

End OpenAI.

(** ** The conversational path of the webhook ([index.js], lines 111-134) *)

Module Webhook.

Definition apology : jsstring :=
  js "Sorry, I couldn't create a reply at the moment.".

(** [`[${message.type} message received]`] *)
Definition placeholder (mtype : jsstring) : jsstring :=
  js "[" ++ mtype ++ js " message received]".

(** The two places of the path that call [console.error]: the catch around
    [generateReply] (lines 124-127) and the catch around [sendTextMessage]
    (lines 130-134). *)
Inductive LogLine :=
| OpenAIError (e : Exn)
| SendFailure.

(** What the webhook does for one message. *)
Record Outcome := mkOutcome {
  store_after : gmap jsstring Session;
  reply_sent : jsstring;          (* the text given to [sendTextMessage] *)
  logged : list LogLine           (* the calls of [console.error], in order *)
}.

Section Flow.

Variable maxMessages : Z.
(** The completion service, and the readings of [Date.now()] in the order in
    which the store takes them. *)
Variable post : list Message -> OpenAI.AxiosResult.
Variable clock : nat -> Z.
(** [sendTextMessage(toPhoneNumber, text)] (lines 59-72) awaits one
    [axios.post]: [true] when the request resolves, [false] when it is
    rejected. *)
Variable sendTextMessage : jsstring -> jsstring -> bool.

(** The text the webhook records for the user. *)
Definition recorded_text (userText mtype : jsstring) : jsstring :=
  if JS.truthy userText && JS.truthy (JS.trim userText)
  then JS.trim userText
  else placeholder mtype.

(** Lines 111-119: the user's text is appended, then the conversation is
    read. *)
Definition record_user (from userText mtype : jsstring)
    (store : gmap jsstring Session) : gmap jsstring Session * list Message :=
  let store1 :=
    SessionStore.appendUserMessage maxMessages (clock 0) from
      (recorded_text userText mtype) store in
  SessionStore.getConversationForOpenAI (clock 1) from store1.

(** Lines 129-134: the reply is sent; a rejected send is caught and
    logged. *)
Definition send_reply (from reply : jsstring) : list LogLine :=
  if sendTextMessage from reply then [] else [SendFailure].

(** Lines 111-134. *)
Definition on_message (from userText mtype : jsstring)
    (store : gmap jsstring Session) : Outcome :=
  let '(store2, convo) := record_user from userText mtype store in
  match OpenAI.generateReply post convo with
  | Normal reply =>
      mkOutcome
        (SessionStore.appendAssistantMessage maxMessages (clock 2) from reply
           store2)
        reply (send_reply from reply)
  | Throw err =>
      mkOutcome store2 apology (OpenAIError err :: send_reply from apology)
  end.

End Flow.

End Webhook.

(** ** The command engine ([commands_Version3.js]) *)

(** *** Utilities *)

Definition isDigit (c : N) : bool := ((48 <=? c) && (c <=? 57))%N.

(** [normalizeBare]: [String(jidOrNumber || '').replace(/\D/g, '')] *)
Definition normalizeBare (jidOrNumber : jsstring) : jsstring :=
  filter (fun c => isDigit c = true) jidOrNumber.

Record Command := mkCommand {
  cmd : jsstring;
  args : list jsstring;
  raw : jsstring
}.

(** [parseCommand(text)]; [None] is [null]. *)
Definition parseCommand (text : jsstring) : option Command :=
  if negb (JS.truthy text) then None
  else
    let t := JS.trim text in
    if negb (JS.startsWith (js "/") t) then None
    else
      let parts := JS.split_ws (drop 1 t) in
      Some (mkCommand (JS.toLowerCase (default [] (head parts)))
                      (drop 1 parts) t).

(** *** Safety helpers *)

Definition PROFANITY : list jsstring := [js "badword1"; js "badword2"].

Definition containsProfanity (text : jsstring) : bool :=
  if negb (JS.truthy text) then false
  else
    let lower := JS.toLowerCase text in
    existsb (fun p => JS.includes lower p) PROFANITY.

(** *** Numbers in texts *)

(** The decimal text of an integer, as a template literal prints it (below
    1e21, where JavaScript changes to the exponent form). *)
Definition numToString (z : Z) : jsstring :=
  js (NilZero.string_of_int (Z.to_int z)).

Definition digit36 (d : N) : N :=
  if (d <? 10)%N then (48 + d)%N else (87 + d)%N.

Fixpoint toRadix36 (fuel : nat) (n : N) (acc : jsstring) : jsstring :=
  match fuel with
  | O => acc
  | S f =>
      let acc' := digit36 (n mod 36) :: acc in
      if (n / 36 =? 0)%N then acc' else toRadix36 f (n / 36) acc'
  end.

(** [n.toString(36)] for a natural number; it has no more digits in base 36
    than in base 2, so the fuel is enough. *)
Definition toString36 (n : N) : jsstring :=
  toRadix36 (S (N.to_nat (N.log2 n))) n [].

Definition digitValue (c : N) : Z := Z.of_N c - 48.

(** [parseInt(s, 10)]: leading white space, a sign, then the longest run of
    decimal digits; [None] is NaN. The value is exact (a JavaScript number
    rounds beyond 2^53). *)
Definition parseInt10 (s : jsstring) : option Z :=
  let s1 := JS.trimStart s in
  let '(neg, s2) :=
    match s1 with
    | 45%N :: r => (true, r)
    | 43%N :: r => (false, r)
    | _ => (false, s1)
    end in
  match JS.takeWhile isDigit s2 with
  | [] => None
  | ds =>
      let v := fold_left (fun a c => 10 * a + digitValue c) ds 0 in
      Some (if neg : bool then - v else v)
  end.

(** [parseInt(args[1], 10)] where the argument may be missing. *)
Definition parseInt10_arg (a : option jsstring) : option Z :=
  match a with
  | None => None
  | Some s => parseInt10 s
  end.

(** *** Command registry *)

(** The keys of [HANDLERS]. *)
Inductive HandlerId :=
| H_help | H_menu | H_reset | H_summary | H_export | H_translate | H_define
| H_tts | H_download | H_video | H_image | H_joke | H_meme | H_flirt
| H_compliment | H_insult | H_wasted | H_poll | H_vote | H_broadcast
| H_stats.

(** What the property read [HANDLERS[cmd]] can give: a handler of the
    registry, or, [HANDLERS] being an object literal, what it inherits under
    a lower-case name: [Object] under [constructor] and the prototype
    object, which is no function, under [__proto__]. *)
Inductive Callee :=
| Registered (h : HandlerId)
| ObjectConstructor
| ObjectPrototype.

Definition HANDLERS_own : list (jsstring * HandlerId) :=
  [ (js "help", H_help); (js "menu", H_menu); (js "reset", H_reset);
    (js "summary", H_summary); (js "export", H_export);
    (js "translate", H_translate); (js "define", H_define);
    (js "tts", H_tts); (js "download", H_download); (js "video", H_video);
    (js "image", H_image); (js "joke", H_joke); (js "meme", H_meme);
    (js "flirt", H_flirt); (js "compliment", H_compliment);
    (js "insult", H_insult); (js "wasted", H_wasted); (js "poll", H_poll);
    (js "vote", H_vote); (js "broadcast", H_broadcast);
    (js "stats", H_stats) ].

Fixpoint assoc {V} (k : jsstring) (l : list (jsstring * V)) : option V :=
  match l with
  | [] => None
  | (k', v) :: l' => if decide (k = k') then Some v else assoc k l'
  end.

(** [HANDLERS[key]]; [None] is [undefined]. *)
Definition HANDLERS (key : jsstring) : option Callee :=
  match assoc key HANDLERS_own with
  | Some h => Some (Registered h)
  | None =>
      if decide (key = js "constructor") then Some ObjectConstructor
      else if decide (key = js "__proto__") then Some ObjectPrototype
      else None
  end.

(** The text of a line feed. *)
Definition nl : jsstring := [10%N].

(** The code unit of the double quote, and a text between double quotes. *)
Definition dquote : N := 34%N.

Definition quote (s : jsstring) : jsstring := dquote :: s ++ [dquote].

(** An entry of [COMMANDS]; [title] and [category] are used by the menu
    only. *)
Record CommandInfo := mkInfo {
  id : jsstring;
  description : jsstring;
  usage : jsstring
}.

Definition COMMANDS : list CommandInfo :=
  [ mkInfo (js "help") (js "Show help and commands") (js "/help");
    mkInfo (js "menu") (js "Open interactive menu") (js "/menu");
    mkInfo (js "reset") (js "Reset your conversation") (js "/reset");
    mkInfo (js "summary") (js "Summarize the conversation") (js "/summary");
    mkInfo (js "export") (js "Export recent conversation") (js "/export");
    mkInfo (js "translate") (js "Translate text to target language")
           (js "/translate <lang> <text>");
    mkInfo (js "define") (js "Get a concise definition") (js "/define <word>");
    mkInfo (js "tts") (js "Generate a short TTS audio link (optional)")
           (js "/tts <text>");
    mkInfo (js "download") (js "Download last sent image/video/document")
           (js "/download");
    mkInfo (js "video") (js "Download video from URL") (js "/video <url>");
    mkInfo (js "image")
           (js "Generate an image from prompt (requires OpenAI image key)")
           (js "/image <prompt>");
    mkInfo (js "joke") (js "Tell a joke") (js "/joke");
    mkInfo (js "meme") (js "Generate meme caption") (js "/meme <topic>");
    mkInfo (js "flirt") (js "Send a playful flirt") (js "/flirt [name]");
    mkInfo (js "compliment") (js "Send a compliment")
           (js "/compliment [name]");
    mkInfo (js "insult") (js "Send a mild playful insult")
           (js "/insult [name]");
    mkInfo (js "wasted") (js "Send wasted meme") (js "/wasted [name]");
    mkInfo (js "poll") (js "Create a simple poll")
           (js "/poll " ++ quote (js "Question") ++ js " "
              ++ quote (js "Option1") ++ js " " ++ quote (js "Option2")
              ++ js " [...]]");
    mkInfo (js "vote") (js "Vote in a poll")
           (js "/vote <pollId> <optionIndex>");
    mkInfo (js "broadcast") (js "Admin: send broadcast")
           (js "/broadcast <message>");
    mkInfo (js "stats") (js "Admin: show usage stats") (js "/stats") ].

(** *** State, events and the environment *)

(** A poll of [POLLS]; [votes] is the object that maps an option index to
    the array of the voters of that option. *)
Record Poll := mkPoll {
  question : jsstring;
  options : list jsstring;
  votes : gmap Z (list jsstring);
  creator : jsstring
}.

(** What the engine does that can be seen from outside, oldest first. *)
Inductive Event :=
| Send (to text : jsstring) (ok : bool)   (* [context.sendText(to, text)],
                                             resolved or rejected *)
| Invoke (c : Callee) (from : jsstring) (args : list jsstring)
| ConsoleError.

Record World := mkWorld {
  POLLS : gmap jsstring Poll;
  trace : list Event
}.

(** A computation that reads and changes the state and ends normally or by
    throwing. *)
Definition M (A : Type) : Type := World -> Completion A * World.

Definition ret {A} (a : A) : M A := fun w => (Normal a, w).

Definition throw {A} (e : Exn) : M A := fun w => (Throw e, w).

Definition bind {A B} (m : M A) (k : A -> M B) : M B :=
  fun w =>
    match m w with
    | (Normal a, w') => k a w'
    | (Throw e, w') => (Throw e, w')
    end.

(** [try { m } catch (e) { h e }] *)
Definition try_catch {A} (m : M A) (h : Exn -> M A) : M A :=
  fun w =>
    match m w with
    | (Normal a, w') => (Normal a, w')
    | (Throw e, w') => h e w'
    end.

Notation "'let!' x ':=' m 'in' k" := (bind m (fun x => k))
  (at level 10, x name, k at level 200).
Notation "m ;; k" := (bind m (fun _ => k))
  (at level 100, k at level 200, right associativity).

Definition emit (e : Event) : M unit :=
  fun w => (Normal tt, mkWorld (POLLS w) (trace w ++ [e])).

Definition getPolls : M (gmap jsstring Poll) := fun w => (Normal (POLLS w), w).

Definition setPoll (k : jsstring) (p : Poll) : M unit :=
  fun w => (Normal tt, mkWorld (<[k := p]> (POLLS w)) (trace w)).

(** What the caller and the runtime provide: [context.sendText] ([None]
    when it is no function; otherwise whether the call resolves, given what
    happened so far), the readings of [Date.now()] and of
    [Math.floor(Math.random()*1000)], and the handlers that work through the
    network, the file system or the completion service. *)
Record Env := mkEnv {
  sendText : option (list Event -> jsstring -> jsstring -> bool);
  DateNow : World -> N;
  random1000 : World -> N;
  external : HandlerId -> jsstring -> list jsstring -> M unit
}.

(** [await context.sendText(to, text)] *)
Definition callSendText (env : Env) (to text : jsstring) : M unit :=
  match sendText env with
  | None => throw TypeError
  | Some f =>
      fun w =>
        let ok := f (trace w) to text in
        (if ok then Normal tt else Throw Rejection,
         mkWorld (POLLS w) (trace w ++ [Send to text ok]))
  end.

(** *** Polls *)

(** [generatePollId()] *)
Definition generatePollId (now rnd : N) : jsstring :=
  js "poll_" ++ toString36 now ++ js "_" ++ numToString (Z.of_N rnd).

(** The expression of [cmd_poll] is, with Q for the double quote,
    [Q([^Q]+)Q\s*Q([^Q]+)Q(?:\s*Q([^Q]+)Q)?(?:\s*Q([^Q]+)Q)?(?:\s*Q([^Q]+)Q)?].
    Every piece of it can match in one way only: [[^Q]+] must run up to the
    next double quote and [\s*] up to the next code unit that is no white
    space, so the matcher below never has to come back on a choice.

    [Q([^Q]+)Q] at the head of [s]: the group and what follows. *)
Definition quoted (s : jsstring) : option (jsstring * jsstring) :=
  match s with
  | c :: s1 =>
      if (c =? dquote)%N then
        let notq := fun c => negb (c =? dquote)%N in
        match JS.takeWhile notq s1, JS.dropWhile notq s1 with
        | (_ :: _) as body, _ :: s2 => Some (body, s2)
        | _, _ => None
        end
      else None
  | [] => None
  end.

(** [\s*Q([^Q]+)Q] at the head of [s]. *)
Definition ws_quoted (s : jsstring) : option (jsstring * jsstring) :=
  quoted (JS.dropWhile JS.isWhite s).

(** The optional groups [(?:\s*Q([^Q]+)Q)?], [n] of them in a row: a
    group that does not match leaves [undefined], and the groups after it
    meet the same text and do not match either. *)
Fixpoint optional_groups (n : nat) (s : jsstring) : list jsstring :=
  match n with
  | O => []
  | S n' =>
      match ws_quoted s with
      | Some (g, s') => g :: optional_groups n' s'
      | None => []
      end
  end.

(** The regular expression of [cmd_poll] tried at the head of [s]: the
    first group, and the other groups that are defined. *)
Definition match_at (s : jsstring) : option (jsstring * list jsstring) :=
  match quoted s with
  | Some (q, s1) =>
      match ws_quoted s1 with
      | Some (o, s2) => Some (q, o :: optional_groups 3 s2)
      | None => None
      end
  | None => None
  end.

(** [text.match(...)]: the leftmost position at which the expression
    matches; the result is [(m[1], m.slice(2).filter(Boolean))]. *)
Fixpoint poll_match (s : jsstring) : option (jsstring * list jsstring) :=
  match match_at s with
  | Some r => Some r
  | None =>
      match s with
      | [] => None
      | _ :: s' => poll_match s'
      end
  end.

(** [options.forEach((_, idx) => votes[idx] = [])] *)
Definition empty_votes (n : nat) : gmap Z (list jsstring) :=
  fold_left (fun m i => <[Z.of_nat i := []]> m) (seq 0 n) ∅.

(** [options.map((o, i) => `${i}. ${o}`)] *)
Definition optLines (opts : list jsstring) : list jsstring :=
  imap (fun i o => numToString (Z.of_nat i) ++ js ". " ++ o) opts.

Definition poll_usage : jsstring :=
  js "Usage: /poll " ++ quote (js "Question") ++ js " "
    ++ quote (js "Option1") ++ js " " ++ quote (js "Option2")
    ++ js " [...]. Use quotes around each.".

Definition poll_too_few : jsstring :=
  js "Create a poll with at least 2 options.".

(** U+2705, the check mark the confirmations start with. *)
Definition check_mark : N := 9989%N.

Definition poll_created (pid q : jsstring) (opts : list jsstring) : jsstring :=
  check_mark :: js " Poll created: " ++ pid ++ nl ++ js "Q: " ++ q ++ nl
    ++ JS.join nl (optLines opts) ++ nl ++ js "To vote: /vote " ++ pid
    ++ js " <optionIndex>".

Definition with_votes (p : Poll) (v : gmap Z (list jsstring)) : Poll :=
  mkPoll (question p) (options p) v (creator p).

(** [cmd_poll(from, args, context)] *)
Definition cmd_poll (env : Env) (from : jsstring) (args : list jsstring)
  : M unit :=
  let text := JS.join (js " ") args in
  match poll_match text with
  | None => callSendText env from poll_usage
  | Some (question, options) =>
      if (length options <? 2)%nat then callSendText env from poll_too_few
      else
        fun w =>
          let pid := generatePollId (DateNow env w) (random1000 env w) in
          let votes := empty_votes (length options) in
          (setPoll pid (mkPoll question options votes (normalizeBare from)) ;;
           callSendText env from (poll_created pid question options)) w
  end.

(** [const pos = arr.indexOf(voter); if (pos !== -1) arr.splice(pos, 1)] *)
Fixpoint removeFirst (voter : jsstring) (arr : list jsstring)
  : list jsstring :=
  match arr with
  | [] => []
  | x :: arr' =>
      if decide (x = voter) then arr' else x :: removeFirst voter arr'
  end.

(** The counts of line 472: [poll.options.map((opt, i) => ...
    poll.votes[i].length ...)], from index [i] on; [None] when some
    [poll.votes[i]] is [undefined], where the source throws a TypeError. *)
Fixpoint tally_from (i : nat) (votes : gmap Z (list jsstring))
    (opts : list jsstring) : option (list (jsstring * nat)) :=
  match opts with
  | [] => Some []
  | opt :: opts' =>
      match votes !! Z.of_nat i, tally_from (S i) votes opts' with
      | Some arr, Some t => Some ((opt, length arr) :: t)
      | _, _ => None
      end
  end.

Definition tally (p : Poll) : option (list (jsstring * nat)) :=
  tally_from 0 (votes p) (options p).

(** U+2014, the dash of some of the texts. *)
Definition em_dash : N := 8212%N.

(** [`${i}. ${opt} — ${poll.votes[i].length} votes`], joined by line
    feeds *)
Definition resultLines (t : list (jsstring * nat)) : jsstring :=
  JS.join nl
    (imap (fun i '(opt, n) =>
             numToString (Z.of_nat i) ++ js ". " ++ opt ++ js " "
               ++ [em_dash] ++ js " " ++ numToString (Z.of_nat n)
               ++ js " votes") t).

Definition vote_usage : jsstring := js "Usage: /vote <pollId> <optionIndex>".
Definition poll_not_found : jsstring := js "Poll not found.".
Definition invalid_option : jsstring := js "Invalid option index.".

Definition vote_recorded (idx : Z) : jsstring :=
  check_mark :: js " Your vote for option " ++ numToString idx
    ++ js " recorded.".

Definition poll_results (q : jsstring) (t : list (jsstring * nat)) : jsstring :=
  js "Poll: " ++ q ++ nl ++ resultLines t.

(** [cmd_vote(from, args, context)]. The poll is an object shared with
    [POLLS], so every change of its arrays is a change of [POLLS]. *)
Definition cmd_vote (env : Env) (from : jsstring) (args : list jsstring)
  : M unit :=
  let pollId := default [] (args !! 0%nat) in
  match JS.truthy pollId, parseInt10_arg (args !! 1%nat) with
  | true, Some idx =>
      let! polls := getPolls in
      match polls !! pollId with
      | None => callSendText env from poll_not_found
      | Some poll =>
          (* remove previous votes by user *)
          let voter := normalizeBare from in
          let poll1 := with_votes poll (removeFirst voter <$> votes poll) in
          setPoll pollId poll1 ;;
          match votes poll1 !! idx with
          | None => callSendText env from invalid_option
          | Some arr =>
              let poll2 :=
                with_votes poll1 (<[idx := arr ++ [voter]]> (votes poll1)) in
              setPoll pollId poll2 ;;
              callSendText env from (vote_recorded idx) ;;
              (* show current results *)
              match tally poll2 with
              | None => throw TypeError
              | Some t => callSendText env from (poll_results (question poll2) t)
              end
          end
      end
  | _, _ => callSendText env from vote_usage
  end.

(** *** The dispatcher *)

(** [await handler(from, args, context)] for what [HANDLERS] gave. *)
Definition call (env : Env) (c : Callee) (from : jsstring)
    (args : list jsstring) : M unit :=
  match c with
  | ObjectPrototype => throw TypeError
  | ObjectConstructor => emit (Invoke c from args)
  | Registered h =>
      emit (Invoke c from args) ;;
      match h with
      | H_poll => cmd_poll env from args
      | H_vote => cmd_vote env from args
      | _ => external env h from args
      end
  end.

Definition profanity_warning : jsstring := js "Please avoid profanity.".

Definition handler_apology : jsstring :=
  js "Sorry " ++ [em_dash]
    ++ js " an error occurred while running that command.".

Definition unknown_command (cmd : jsstring) : jsstring :=
  js "Unknown command " ++ [dquote] ++ js "/" ++ cmd ++ [dquote]
    ++ js ". Send /help or /menu.".

(** [s.replace('/', '')]: the first slash is taken out. *)
Fixpoint removeFirstSlash (s : jsstring) : jsstring :=
  match s with
  | [] => []
  | c :: s' => if (c =? 47)%N then s' else c :: removeFirstSlash s'
  end.

(** The text the dispatcher sends when nothing answers to the command. *)
Definition unknown (env : Env) (from cmd : jsstring) : M bool :=
  callSendText env from (unknown_command cmd) ;; ret true.

(** [handleCommand(from, text, context)]; the result is [handled]. The
    write [context.rawCommand = text] is left out: nothing reads it but an
    unused variable of [cmd_poll]. *)
Definition handleCommand (env : Env) (from text : jsstring) : M bool :=
  match parseCommand text with
  | None => ret false
  | Some parsed =>
      let cmd := cmd parsed in
      let args := args parsed in
      match sendText env with
      | None => throw (Error (js "context.sendText must be provided"))
      | Some _ =>
          (* Basic spam / profanity guard *)
          if containsProfanity text then
            callSendText env from profanity_warning ;; ret true
          else
            (* dispatch *)
            match HANDLERS cmd with
            | Some handler =>
                try_catch (call env handler from args)
                  (fun err =>
                     emit ConsoleError ;;
                     try_catch (callSendText env from handler_apology)
                               (fun e => ret tt)) ;;
                ret true
            | None =>
                if JS.startsWith (js "cmd:") cmd then
                  let id' := drop 4 cmd in
                  match List.find (fun c => bool_decide (id c = id')) COMMANDS with
                  | Some target =>
                      let usageParts := JS.split_ws (usage target) in
                      let main := removeFirstSlash (default [] (head usageParts)) in
                      match HANDLERS main with
                      | Some h =>
                          try_catch (call env h from (drop 1 usageParts))
                                    (fun e => emit ConsoleError) ;;
                          ret true
                      | None =>
                          callSendText env from
                            (if JS.truthy (description target)
                             then description target
                             else js "Command selected.") ;;
                          ret true
                      end
                  | None => unknown env from cmd
                  end
                else unknown env from cmd
            end
      end
  end.

(** ** Notions the properties are stated with *)

(** A call of the store, as the callers make them. *)
Inductive StoreOp :=
| AppendUser (now : Z) (u text : jsstring)
| AppendAssistant (now : Z) (u text : jsstring).

Definition store_step (maxMessages : Z) (store : gmap jsstring Session)
    (op : StoreOp) : gmap jsstring Session :=
  match op with
  | AppendUser now u text =>
      SessionStore.appendUserMessage maxMessages now u text store
  | AppendAssistant now u text =>
      SessionStore.appendAssistantMessage maxMessages now u text store
  end.

(** The store after a sequence of calls, first call first. *)
Definition store_run (maxMessages : Z) (ops : list StoreOp)
    (store : gmap jsstring Session) : gmap jsstring Session :=
  fold_left (store_step maxMessages) ops store.

(** The history starts with the persona preamble, and no other message of
    it has the system role. *)
Definition system_first (s : Session) : Prop :=
  exists rest, messages s = SYSTEM :: rest
               /\ Forall (fun m => role m <> system) rest.

(** [history.length - 1 <= maxTurns] *)
Definition within_cap (maxMessages : Z) (s : Session) : Prop :=
  Z.of_nat (length (messages s)) - 1 <= maxMessages.

Definition store_ok (P : Session -> Prop) (store : gmap jsstring Session)
  : Prop :=
  forall u s, store !! u = Some s -> P s.

(** A failed call of the completion service: the transport failed, or the
    response has no content. *)
Definition completion_fails (r : OpenAI.AxiosResult) : Prop :=
  r = OpenAI.Rejected \/ r = OpenAI.Responded None
  \/ r = OpenAI.Responded (Some []).

(** The history of a user in a store; empty when there is no session. *)
Definition history (store : gmap jsstring Session) (u : jsstring)
  : list Message :=
  match store !! u with
  | Some s => messages s
  | None => []
  end.

(** The text contains a prohibited term, whatever the case of its
    letters. *)
Definition prohibited (text : jsstring) : Prop :=
  exists p pre post,
    p ∈ PROFANITY /\ JS.toLowerCase text = pre ++ p ++ post.

(** An environment for examples: [ok] tells which sends resolve, the clock
    and the random number are fixed, and the handlers that are not modelled
    do nothing. *)
Definition fixed_env (ok : list Event -> bool) (now rnd : N) : Env :=
  mkEnv (Some (fun tr _ _ => ok tr)) (fun _ => now) (fun _ => rnd)
        (fun _ _ _ => ret tt).

Definition is_send (e : Event) : bool :=
  match e with Send _ _ _ => true | _ => false end.

(** The state before any command. *)
Definition initial : World := mkWorld ∅ [].

(** The world a computation leaves. *)
Definition after {A} (m : M A) (w : World) : World := (m w).2.

(** A text a group [([^Q]+)] of the poll expression can capture: not empty
    and free of double quotes. *)
Definition group_ok (g : jsstring) : Prop := g <> [] /\ dquote ∉ g.

(** A run of white space, possibly empty. *)
Definition blank (s : jsstring) : Prop :=
  Forall (fun c => JS.isWhite c = true) s.

(** A call of one of the two poll handlers. *)
Inductive PollCmd :=
| DoPoll (from : jsstring) (args : list jsstring)
| DoVote (from : jsstring) (args : list jsstring).

Definition poll_step (env : Env) (w : World) (c : PollCmd) : World :=
  match c with
  | DoPoll from args => after (cmd_poll env from args) w
  | DoVote from args => after (cmd_vote env from args) w
  end.

(** The state after a sequence of calls, first call first; a call that
    throws leaves the state it had reached. *)
Definition poll_run (env : Env) (cs : list PollCmd) (w : World) : World :=
  fold_left (poll_step env) cs w.

(** No array of voters holds a voter twice, and no voter is in the arrays of
    two options. *)
Definition poll_ok (p : Poll) : Prop :=
  (forall i a, votes p !! i = Some a -> NoDup a)
  /\ (forall v i j a b,
        votes p !! i = Some a -> votes p !! j = Some b ->
        v ∈ a -> v ∈ b -> i = j).

(** The voters of option [i] of poll [pid]; none when there is no such poll
    or option. *)
Definition voters (w : World) (pid : jsstring) (i : Z) : list jsstring :=
  match POLLS w !! pid with
  | Some p => default [] (votes p !! i)
  | None => []
  end.

Definition polls_ok (polls : gmap jsstring Poll) : Prop :=
  forall pid p, polls !! pid = Some p -> poll_ok p.

(** The state after a sequence of inbound texts, each with its sender, has
    gone through [handleCommand]; first text first. *)
Definition route_run (env : Env) (msgs : list (jsstring * jsstring))
    (w : World) : World :=
  fold_left (fun w m => after (handleCommand env m.1 m.2) w) msgs w.

(** ** More of the program *)

(** *** The periodic cleanup of the store ([index.js], lines 203-212) *)

Module Cleanup.

(** [ttlMinutes * 60 * 1000] *)
Definition ttlMs (ttlMinutes : Z) : Z := ttlMinutes * 60 * 1000.

(** The body of the [setInterval] callback, with the reading of the clock as
    [now]: every session with [now - value.lastSeen > ttlMs] is deleted.
    [ttlMinutes] is [parseInt(process.env.SESSION_TTL_MINUTES || '60', 10)];
    [None] stands for NaN, with which the comparison never holds. *)
Definition sweep (ttlMinutes : option Z) (now : Z)
    (store : gmap jsstring Session) : gmap jsstring Session :=
  match ttlMinutes with
  | None => store
  | Some t =>
      filter (fun kv => ~ (ttlMs t < now - lastSeen kv.2)) store
  end.

End Cleanup.

(** *** Utilities of the command engine *)

(** [s.split(sep)] for a separator of one code unit. *)
Fixpoint split_on (sep : N) (cur : jsstring) (s : jsstring)
  : list jsstring :=
  match s with
  | [] => [cur]
  | c :: s' =>
      if (c =? sep)%N then cur :: split_on sep [] s'
      else split_on sep (cur ++ [c]) s'
  end.

(** [value.split(',').map(s => s.trim()).filter(Boolean)], the reading of a
    list in an environment variable; an unset variable is the empty
    text. *)
Definition env_list (value : jsstring) : list jsstring :=
  List.filter JS.truthy (map JS.trim (split_on 44 [] value)).

(** [ADMIN_NUMBERS], from the value of the environment variable. *)
Definition ADMIN_NUMBERS (value : jsstring) : list jsstring :=
  map normalizeBare (env_list value).

(** [isAdmin(jidOrNumber)] *)
Definition isAdmin (admins : list jsstring) (jidOrNumber : jsstring) : bool :=
  bool_decide (normalizeBare jidOrNumber ∈ admins).

(** [safeTruncate(s, n)] for a count [n] *)
Definition safeTruncate (s : jsstring) (n : nat) : jsstring :=
  if (n <? length s)%nat then take n s ++ nl ++ nl ++ js "(truncated)"
  else s.

(** [pickOne(arr)]: [Math.floor(Math.random() * arr.length)] is an index of
    the array; [r] is any natural number and its remainder stands for that
    index. An empty array gives [undefined]. *)
Definition pickOne (r : nat) (arr : list jsstring) : jsstring :=
  default (js "undefined") (arr !! (r mod length arr)%nat).

(** [toBareNumber(to)] of [whatsapp-utils.js] *)
Definition toBareNumber (to : jsstring) : jsstring :=
  if negb (JS.truthy to) then [] else filter (fun c => isDigit c = true) to.

(** *** Protected classes and the insult handler *)

Definition PROTECTED : list jsstring :=
  [js "race"; js "religion"; js "muslim"; js "jew"; js "black"; js "white";
   js "asian"; js "gay"; js "lesbian"; js "trans"; js "immigrant";
   js "disability"].

Definition touchesProtectedClass (text : jsstring) : bool :=
  if negb (JS.truthy text) then false
  else
    let lower := JS.toLowerCase text in
    existsb (fun p => JS.includes lower p) PROTECTED.

Definition INSULTS : list jsstring :=
  [js "You silly goose!"; js "You're a lovable troublemaker."].

Definition insult_refused : jsstring :=
  js "I won't generate insults targeting protected groups. "
    ++ js "Keep it playful and safe.".

(** [args.join(' ').trim() || 'You'] *)
Definition insult_target (args : list jsstring) : jsstring :=
  let t := JS.trim (JS.join (js " ") args) in
  if JS.truthy t then t else js "You".

(** [cmd_insult(from, args, context)], with the random number of [pickOne]
    as [r]. *)
Definition cmd_insult (env : Env) (r : nat) (from : jsstring)
    (args : list jsstring) : M unit :=
  let target := insult_target args in
  if touchesProtectedClass target then callSendText env from insult_refused
  else if containsProfanity target then
    callSendText env from profanity_warning
  else callSendText env from (target ++ js ", " ++ pickOne r INSULTS).

(** *** The admin handlers *)

(** U+274C, the cross mark of the denial. *)
Definition cross_mark : N := 10060%N.

Definition not_authorized : jsstring := cross_mark :: js " Not authorized.".

Definition broadcast_usage : jsstring := js "Usage: /broadcast <message>".

Definition no_recipients : jsstring :=
  js "No recipients configured (BROADCAST_NUMBERS).".

Definition broadcast_start (n : nat) : jsstring :=
  js "Sending broadcast to " ++ numToString (Z.of_nat n)
    ++ js " recipients...".

Definition broadcast_done (sent failed : nat) : jsstring :=
  js "Broadcast done. Sent: " ++ numToString (Z.of_nat sent)
    ++ js ". Failed: " ++ numToString (Z.of_nat failed).

(** The loop over the recipients: each gets the message under
    [`${bare}@c.us`]; a send that is rejected is caught and counted. The
    result is the array [results], as the [ok] of its entries. *)
Fixpoint broadcast_loop (env : Env) (msg : jsstring) (ns : list jsstring)
  : M (list bool) :=
  match ns with
  | [] => ret []
  | n :: rest =>
      let bare := filter (fun c => isDigit c = true) n in
      let! ok :=
        try_catch (callSendText env (bare ++ js "@c.us") msg ;; ret true)
                  (fun _ => ret false) in
      let! oks := broadcast_loop env msg rest in
      ret (ok :: oks)
  end.

(** [cmd_broadcast(from, args, context)], with the values of the
    environment variables [ADMIN_NUMBERS] and [BROADCAST_NUMBERS]. *)
Definition cmd_broadcast (env : Env) (admins recipients : jsstring)
    (from : jsstring) (args : list jsstring) : M unit :=
  if negb (isAdmin (ADMIN_NUMBERS admins) from) then
    callSendText env from not_authorized
  else
    let msg := JS.trim (JS.join (js " ") args) in
    if negb (JS.truthy msg) then callSendText env from broadcast_usage
    else
      let ns := env_list recipients in
      match ns with
      | [] => callSendText env from no_recipients
      | _ =>
          callSendText env from (broadcast_start (length ns)) ;;
          let! results := broadcast_loop env msg ns in
          let failed := List.filter negb results in
          callSendText env from
            (broadcast_done (length results - length failed) (length failed))
      end.

(** [cmd_stats(from, args, context)]; [sessions] is the text of
    [ss.sessions], which comes from [context.sessionStore.getStats()] or is
    [unknown]. *)
Definition cmd_stats (env : Env) (admins sessions : jsstring)
    (from : jsstring) (args : list jsstring) : M unit :=
  if negb (isAdmin (ADMIN_NUMBERS admins) from) then
    callSendText env from not_authorized
  else
    let! polls := getPolls in
    callSendText env from
      (js "Stats:" ++ nl ++ js "Sessions: " ++ sessions ++ nl
         ++ js "Polls: " ++ numToString (Z.of_nat (size polls))).

(** ** More notions for the properties *)

(** A poll has two to four options and one array of voters for each index
    of an option, and for nothing else. *)
Definition poll_shape (p : Poll) : Prop :=
  (2 <= length (options p) <= 4)%nat
  /\ forall i : Z,
       is_Some (votes p !! i) <-> 0 <= i < Z.of_nat (length (options p)).

Definition polls_shape (polls : gmap jsstring Poll) : Prop :=
  forall pid p, polls !! pid = Some p -> poll_shape p.

(** The number a text in base 36 stands for, most significant digit
    first. *)
Definition value36 (s : jsstring) : N :=
  fold_left
    (fun a c => (36 * a + (if (c <? 58) then c - 48 else c - 87))%N) s 0%N.

(** No code unit of the text is white space. *)
Definition no_white (s : jsstring) : Prop :=
  Forall (fun c => JS.isWhite c = false) s.

(** The texts of the sends of a trace, resolved or not. *)
Definition sent_texts (tr : list Event) : list jsstring :=
  flat_map (fun e => match e with Send _ t _ => [t] | _ => [] end) tr.

(** The receivers of the sends of a trace. *)
Definition sent_to (tr : list Event) : list jsstring :=
  flat_map (fun e => match e with Send to _ _ => [to] | _ => [] end) tr.

(** The text is empty or ends with a code unit that is no white space. *)
Definition ends_well (s : jsstring) : Prop :=
  forall c, last s = Some c -> JS.isWhite c = false.

(** The events of the loop: one send for each recipient, in the order of
    the list, with what became of it. *)
Fixpoint broadcast_events (msg : jsstring) (ns : list jsstring)
    (oks : list bool) : list Event :=
  match ns, oks with
  | n :: ns', ok :: oks' =>
      Send (normalizeBare n ++ js "@c.us") msg ok
      :: broadcast_events msg ns' oks'
  | _, _ => []
  end.

(** * Properties *)

(** ** Lists and slices *)

Lemma slice_from_length {A} (start : Z) (a : list A) :
  0 < - start -> Z.of_nat (length (JS.slice_from start a)) <= - start.
Proof.
  intros Hs. unfold JS.slice_from.
  assert ((start <? 0) = true) as -> by (apply Z.ltb_lt; lia).
  rewrite length_drop. lia.
Qed.

Lemma slice_from_zero {A} (a : list A) : JS.slice_from (- 0) a = a.
Proof. unfold JS.slice_from. simpl. rewrite Z.min_l by lia. reflexivity. Qed.

Lemma slice_from_suffix {A} (start : Z) (a : list A) :
  exists k, JS.slice_from start a = drop k a.
Proof. unfold JS.slice_from. eauto. Qed.

(** A slice that counts from the end keeps the last element. *)
Lemma slice_from_keeps_last {A} (n : Z) (a : list A) (x : A) :
  0 <= n -> last (JS.slice_from (- n) (a ++ [x])) = Some x.
Proof.
  intros Hn. unfold JS.slice_from. rewrite length_app. simpl.
  destruct (- n <? 0) eqn:E.
  - apply Z.ltb_lt in E.
    rewrite drop_app_le by lia.
    rewrite last_snoc. reflexivity.
  - apply Z.ltb_ge in E. assert (n = 0) as -> by lia. simpl.
    rewrite Z.min_l by lia. simpl. apply last_snoc.
Qed.

(** ** The session store *)

Section StoreFacts.

Variable maxMessages : Z.

Lemma trim_system_first (s : Session) :
  system_first s -> system_first (SessionStore._trim maxMessages s).
Proof.
  intros (rest & Hm & Hr). unfold SessionStore._trim. rewrite Hm.
  cbn [take drop app messages]. rewrite take_0, drop_0. cbn [app].
  destruct (slice_from_suffix (- maxMessages) rest) as [k ->].
  exists (drop k rest). split; [reflexivity|]. by apply Forall_drop.
Qed.

Lemma trim_within_cap (s : Session) :
  1 <= maxMessages -> messages s <> [] ->
  within_cap maxMessages (SessionStore._trim maxMessages s).
Proof.
  intros Hc Hne. unfold within_cap, SessionStore._trim. cbn [messages].
  destruct (messages s) as [|m rest]; [done|].
  cbn [take drop]. rewrite take_0, drop_0. cbn [app length].
  pose proof (slice_from_length (- maxMessages) rest). lia.
Qed.

(** What an append with a text that is not empty leaves under the user. *)
Lemma append_lookup (r : Role) (now : Z) (u text : jsstring)
    (store : gmap jsstring Session) :
  text <> [] ->
  SessionStore.append maxMessages r now u text store !! u =
  Some (SessionStore._trim maxMessages
          (mkSession (match store !! u with
                      | Some s => messages s
                      | None => [SYSTEM]
                      end ++ [mkMessage r text]) now)).
Proof.
  intros Ht. unfold SessionStore.append, SessionStore._ensureSession.
  destruct text; [done|]. simpl.
  destruct (store !! u); simpl; by rewrite lookup_insert_eq.
Qed.

Lemma append_lookup_ne (r : Role) (now : Z) (u u' text : jsstring)
    (store : gmap jsstring Session) :
  u <> u' ->
  SessionStore.append maxMessages r now u text store !! u' = store !! u'.
Proof.
  intros Hne. unfold SessionStore.append, SessionStore._ensureSession.
  destruct (negb (JS.truthy text)); [done|].
  destruct (store !! u); simpl; by rewrite !lookup_insert_ne.
Qed.

Lemma append_empty (r : Role) (now : Z) (u : jsstring)
    (store : gmap jsstring Session) :
  SessionStore.append maxMessages r now u [] store = store.
Proof. reflexivity. Qed.

Lemma append_system_first (r : Role) (now : Z) (u text : jsstring)
    (store : gmap jsstring Session) :
  r <> system ->
  store_ok system_first store ->
  store_ok system_first (SessionStore.append maxMessages r now u text store).
Proof.
  intros Hr Hok u' s'.
  destruct text as [|c text]; [apply Hok|].
  destruct (decide (u = u')) as [<-|Hne].
  - rewrite append_lookup by done. intros [= <-].
    apply trim_system_first.
    destruct (store !! u) as [s|] eqn:E; simpl.
    + destruct (Hok _ _ E) as (rest & -> & Hrest).
      exists (rest ++ [mkMessage r (c :: text)]). split; [done|].
      apply Forall_app. split; [done|]. by constructor.
    + exists [mkMessage r (c :: text)]. split; [done|]. by constructor.
  - rewrite append_lookup_ne by done. apply Hok.
Qed.

Lemma append_within_cap (r : Role) (now : Z) (u text : jsstring)
    (store : gmap jsstring Session) :
  1 <= maxMessages ->
  store_ok (within_cap maxMessages) store ->
  store_ok (within_cap maxMessages)
           (SessionStore.append maxMessages r now u text store).
Proof.
  intros Hc Hok u' s'.
  destruct text as [|c text]; [apply Hok|].
  destruct (decide (u = u')) as [<-|Hne].
  - rewrite append_lookup by done. intros [= <-].
    apply trim_within_cap; [done|]. simpl.
    destruct (store !! u) as [s|]; simpl; [|done].
    destruct (messages s); done.
  - rewrite append_lookup_ne by done. apply Hok.
Qed.

Lemma store_step_system_first (op : StoreOp) (store : gmap jsstring Session) :
  store_ok system_first store ->
  store_ok system_first (store_step maxMessages store op).
Proof. destruct op; apply append_system_first; done. Qed.

Lemma store_step_within_cap (op : StoreOp) (store : gmap jsstring Session) :
  1 <= maxMessages ->
  store_ok (within_cap maxMessages) store ->
  store_ok (within_cap maxMessages) (store_step maxMessages store op).
Proof. destruct op; apply append_within_cap; done. Qed.

(** Whatever the cap, every history of a store that was built by appends
    starts with the one system message. *)
Lemma store_run_system_first (ops : list StoreOp) :
  store_ok system_first (store_run maxMessages ops ∅).
Proof.
  unfold store_run.
  assert (store_ok system_first (∅ : gmap jsstring Session)) as H0
    by (intros u s; by rewrite lookup_empty).
  revert H0. generalize (∅ : gmap jsstring Session).
  induction ops as [|op ops IH]; intros store Hs; simpl; [done|].
  apply IH. by apply store_step_system_first.
Qed.

(** With a cap of one or more, no history of such a store is longer than the
    cap, the system message apart. *)
Lemma store_run_within_cap (ops : list StoreOp) :
  1 <= maxMessages ->
  store_ok (within_cap maxMessages) (store_run maxMessages ops ∅).
Proof.
  intros Hc. unfold store_run.
  assert (store_ok (within_cap maxMessages) (∅ : gmap jsstring Session)) as H0
    by (intros u s; by rewrite lookup_empty).
  revert H0. generalize (∅ : gmap jsstring Session).
  induction ops as [|op ops IH]; intros store Hs; simpl; [done|].
  apply IH. by apply store_step_within_cap.
Qed.

End StoreFacts.

(** *** The scenario of the design document *)

(** C3, as the code has it: with a cap of one turn, appending the user's
    [hi], the assistant's [hello] and the user's [bye] for a new user leaves
    the history [SYSTEM, user: bye]. The trim runs after every append and
    keeps the newest single turn, so [hi] goes at the second append and
    [hello] at the third. *)
Theorem fifo_scenario_keeps_newest_turn (t1 t2 t3 : Z) :
  history
    (store_run 1
       [AppendUser t1 (js "U1") (js "hi");
        AppendAssistant t2 (js "U1") (js "hello");
        AppendUser t3 (js "U1") (js "bye")] ∅)
    (js "U1")
  = [SYSTEM; mkMessage user (js "bye")].
Proof. vm_compute. reflexivity. Qed.

(** C3, as the claim words it, fails: the history after the three appends is
    not [SYSTEM, assistant: hello, user: bye]. *)
Lemma fifo_scenario_not_two_turns :
  history
    (store_run 1
       [AppendUser 1 (js "U1") (js "hi");
        AppendAssistant 2 (js "U1") (js "hello");
        AppendUser 3 (js "U1") (js "bye")] ∅)
    (js "U1")
  <> [SYSTEM; mkMessage assistant (js "hello"); mkMessage user (js "bye")].
Proof. vm_compute. intros H. discriminate H. Qed.

(** C4 at a cap of zero turns: [rest.slice(-0)] is [rest.slice(0)], the
    whole array, so the user's turn stays and the history is longer than the
    cap allows. *)
Theorem cap_zero_keeps_every_turn :
  history (store_run 0 [AppendUser 1 (js "U1") (js "hi")] ∅) (js "U1")
  = [SYSTEM; mkMessage user (js "hi")]
  /\ ~ store_ok (within_cap 0)
         (store_run 0 [AppendUser 1 (js "U1") (js "hi")] ∅).
Proof.
  split; [vm_compute; reflexivity|].
  intros Hok.
  specialize (Hok (js "U1") (mkSession [SYSTEM; mkMessage user (js "hi")] 1)).
  unfold within_cap in Hok. simpl in Hok.
  assert (2 - 1 <= 0) as Habs by (apply Hok; vm_compute; reflexivity).
  lia.
Qed.

(** C6, as the code has it: an append of the empty text changes nothing in
    the store: no message, no timestamp, no session. *)
Theorem append_empty_text_noop (maxMessages now : Z) (u : jsstring)
    (store : gmap jsstring Session) :
  SessionStore.appendUserMessage maxMessages now u [] store = store
  /\ SessionStore.appendAssistantMessage maxMessages now u [] store = store.
Proof. split; apply append_empty. Qed.

(** C6, as the claim words it, fails: a text of one space is all white
    space, and its append creates the session and stores the message. *)
Lemma append_blank_text_not_noop :
  JS.trim (js " ") = []
  /\ history (SessionStore.appendUserMessage 12 7 (js "U1") (js " ") ∅)
             (js "U1")
     = [SYSTEM; mkMessage user (js " ")]
  /\ history (SessionStore.appendAssistantMessage 12 7 (js "U1") (js " ") ∅)
             (js "U1")
     = [SYSTEM; mkMessage assistant (js " ")]
  /\ SessionStore.appendUserMessage 12 7 (js "U1") (js " ") ∅
     <> (∅ : gmap jsstring Session).
Proof.
  split; [reflexivity|]. split; [vm_compute; reflexivity|].
  split; [vm_compute; reflexivity|].
  intros H.
  assert (history (SessionStore.appendUserMessage 12 7 (js "U1") (js " ") ∅)
                  (js "U1") = history ∅ (js "U1")) as Habs by (by rewrite H).
  vm_compute in Habs. discriminate Habs.
Qed.

(** ** The completion client and the conversational path *)

Lemma generateReply_fails (post : list Message -> OpenAI.AxiosResult)
    (msgs : list Message) :
  completion_fails (post msgs) ->
  exists e, OpenAI.generateReply post msgs = Throw e.
Proof.
  unfold OpenAI.generateReply. intros [-> | [-> | ->]]; simpl; eauto.
Qed.

Lemma recorded_text_not_empty (userText mtype : jsstring) :
  Webhook.recorded_text userText mtype <> [].
Proof.
  unfold Webhook.recorded_text.
  destruct (JS.truthy userText); simpl; [|done].
  destruct (JS.trim userText); simpl; done.
Qed.

(** After a trim with a cap that is not negative, the message appended last
    is the last of the history. *)
Lemma trim_keeps_last (maxMessages now : Z) (prev : list Message)
    (m : Message) :
  0 <= maxMessages ->
  last (messages (SessionStore._trim maxMessages
                    (mkSession (prev ++ [m]) now))) = Some m.
Proof.
  intros Hc. unfold SessionStore._trim. cbn [messages].
  destruct prev as [|p ps].
  - unfold JS.slice_from. cbn [app take drop]. rewrite drop_nil. reflexivity.
  - cbn [app take drop]. rewrite take_0, drop_0. cbn [app].
    pose proof (slice_from_keeps_last maxMessages ps m Hc) as Hl.
    destruct (JS.slice_from (- maxMessages) (ps ++ [m])); [done|].
    exact Hl.
Qed.

Lemma record_user_store (maxMessages : Z) (clock : nat -> Z)
    (from userText mtype : jsstring) (store : gmap jsstring Session) :
  (Webhook.record_user maxMessages clock from userText mtype store).1
  = SessionStore.appendUserMessage maxMessages (clock 0%nat) from
      (Webhook.recorded_text userText mtype) store.
Proof.
  unfold Webhook.record_user, SessionStore.getConversationForOpenAI,
    SessionStore._ensureSession, SessionStore.appendUserMessage.
  rewrite append_lookup by apply recorded_text_not_empty. reflexivity.
Qed.

(** What the webhook records: the trimmed text of the user, or the
    placeholder when that is empty. *)
Lemma recorded_text_spec (userText mtype : jsstring) :
  Webhook.recorded_text userText mtype
  = if JS.truthy (JS.trim userText) then JS.trim userText
    else js "[" ++ mtype ++ js " message received]".
Proof.
  unfold Webhook.recorded_text, Webhook.placeholder.
  destruct userText as [|c cs]; [reflexivity|].
  cbn [JS.truthy andb]. reflexivity.
Qed.

(** C8, as amended: with a cap that is not negative, when the call of the
    completion service fails, the store is what the append of the user's
    message made of it, the message being the trimmed text of the user (the
    placeholder when that text is blank): it is the last of the history and
    no assistant message follows it. The reply given to [sendTextMessage]
    is the fixed apology; and [generateReply] throws for every response
    without content. *)
Theorem completion_failure_keeps_user_message
    (maxMessages : Z) (post : list Message -> OpenAI.AxiosResult)
    (clock : nat -> Z) (sendTextMessage : jsstring -> jsstring -> bool)
    (from userText mtype : jsstring) (store : gmap jsstring Session) :
  0 <= maxMessages ->
  completion_fails
    (post (Webhook.record_user maxMessages clock from userText mtype store).2) ->
  Webhook.store_after
    (Webhook.on_message maxMessages post clock sendTextMessage from userText
       mtype store)
  = SessionStore.appendUserMessage maxMessages (clock 0%nat) from
      (if JS.truthy (JS.trim userText) then JS.trim userText
       else js "[" ++ mtype ++ js " message received]") store
  /\ last (history
             (Webhook.store_after
                (Webhook.on_message maxMessages post clock sendTextMessage
                   from userText mtype store)) from)
     = Some (mkMessage user
               (if JS.truthy (JS.trim userText) then JS.trim userText
                else js "[" ++ mtype ++ js " message received]"))
  /\ Webhook.reply_sent
       (Webhook.on_message maxMessages post clock sendTextMessage from
          userText mtype store)
     = js "Sorry, I couldn't create a reply at the moment."
  /\ (forall msgs, post msgs = OpenAI.Responded None
                   \/ post msgs = OpenAI.Responded (Some []) ->
                   OpenAI.generateReply post msgs
                   = Throw (Error OpenAI.no_content)).
Proof.
  intros Hc Hfail.
  destruct (generateReply_fails _ _ Hfail) as [e He].
  assert (Webhook.on_message maxMessages post clock sendTextMessage from
            userText mtype store
          = Webhook.mkOutcome
              (Webhook.record_user maxMessages clock from userText mtype store).1
              Webhook.apology
              (Webhook.OpenAIError e
                 :: Webhook.send_reply sendTextMessage from Webhook.apology))
    as ->.
  { unfold Webhook.on_message.
    destruct (Webhook.record_user _ _ _ _ _ _) as [store2 convo].
    simpl in He. by rewrite He. }
  cbn [Webhook.store_after Webhook.reply_sent].
  rewrite record_user_store, recorded_text_spec.
  split; [done|]. split; [|split; [done|]].
  - unfold history, SessionStore.appendUserMessage.
    rewrite append_lookup
      by (rewrite <- recorded_text_spec; apply recorded_text_not_empty).
    by apply trim_keeps_last.
  - intros msgs [H | H]; unfold OpenAI.generateReply; by rewrite H.
Qed.

Lemma completion_failure_keeps_user_message_witness :
  Webhook.store_after
    (Webhook.on_message 12 (fun _ => OpenAI.Rejected) Z.of_nat
       (fun _ _ => false) (js "15550001") (js " hello ") (js "text") ∅)
  = SessionStore.appendUserMessage 12 0 (js "15550001") (js "hello") ∅
  /\ last (history
             (Webhook.store_after
                (Webhook.on_message 12 (fun _ => OpenAI.Rejected) Z.of_nat
                   (fun _ _ => false) (js "15550001") (js " hello ")
                   (js "text") ∅))
             (js "15550001"))
     = Some (mkMessage user (js "hello"))
  /\ Webhook.reply_sent
       (Webhook.on_message 12 (fun _ => OpenAI.Rejected) Z.of_nat
          (fun _ _ => false) (js "15550001") (js " hello ") (js "text") ∅)
     = js "Sorry, I couldn't create a reply at the moment."
  /\ (forall msgs, (fun _ : list Message => OpenAI.Rejected) msgs
                   = OpenAI.Responded None
                   \/ (fun _ : list Message => OpenAI.Rejected) msgs
                      = OpenAI.Responded (Some []) ->
                   OpenAI.generateReply (fun _ => OpenAI.Rejected) msgs
                   = Throw (Error OpenAI.no_content)).
Proof.
  apply (completion_failure_keeps_user_message 12 (fun _ => OpenAI.Rejected)
           Z.of_nat (fun _ _ => false) (js "15550001") (js " hello ")
           (js "text") ∅).
  - lia.
  - left. reflexivity.
Defined.

(** C8, as the claim words it, fails for a cap below zero: [_trim] keeps
    [rest.slice(1)] for the cap -1, so the message that was just appended is
    dropped and the history holds the preamble alone when the apology is
    sent. *)
Lemma completion_failure_negative_cap_loses_message :
  completion_fails
    ((fun _ : list Message => OpenAI.Rejected)
       (Webhook.record_user (-1) Z.of_nat (js "15550001") (js "hello")
          (js "text") ∅).2)
  /\ history
       (Webhook.store_after
          (Webhook.on_message (-1) (fun _ => OpenAI.Rejected) Z.of_nat
             (fun _ _ => true) (js "15550001") (js "hello") (js "text") ∅))
       (js "15550001")
     = [SYSTEM]
  /\ Webhook.reply_sent
       (Webhook.on_message (-1) (fun _ => OpenAI.Rejected) Z.of_nat
          (fun _ _ => true) (js "15550001") (js "hello") (js "text") ∅)
     = Webhook.apology.
Proof.
  split; [left; reflexivity|]. split; vm_compute; reflexivity.
Qed.

(** ** Strings *)

Lemma startsWith_spec (p s : jsstring) :
  JS.startsWith p s = true <-> exists post, s = p ++ post.
Proof.
  revert s. induction p as [|a p IH]; intros s; simpl.
  - split; [eauto|done].
  - destruct s as [|b s].
    + split; [done|]. intros [post H]. discriminate H.
    + rewrite andb_true_iff, N.eqb_eq, IH. split.
      * intros [-> [post ->]]. eauto.
      * intros [post [= -> ->]]. eauto.
Qed.

(** [includes] finds exactly the texts that occur somewhere in [s]. *)
Lemma includes_spec (s p : jsstring) :
  JS.includes s p = true <-> exists pre post, s = pre ++ p ++ post.
Proof.
  induction s as [|c s IH]; simpl; rewrite orb_true_iff, startsWith_spec.
  - split.
    + intros [[post H] | H]; [|done]. exists [], post. done.
    + intros (pre & post & H). left.
      destruct pre; [|discriminate H]. eauto.
  - rewrite IH. split.
    + intros [[post H] | (pre & post & ->)].
      * exists [], post. done.
      * exists (c :: pre), post. done.
    + intros (pre & post & H). destruct pre as [|c' pre].
      * left. eauto.
      * right. injection H as -> ->. eauto.
Qed.

Lemma containsProfanity_spec (text : jsstring) :
  containsProfanity text = true <-> prohibited text.
Proof.
  unfold containsProfanity, prohibited. split.
  - destruct (JS.truthy text); cbn [negb]; [|done].
    rewrite existsb_exists. intros (p & Hp & Hi).
    apply includes_spec in Hi as (pre & post & Hi).
    exists p, pre, post. split; [by apply list_elem_of_In|done].
  - intros (p & pre & post & Hp & Hl).
    destruct text as [|c text].
    + simpl in Hl. destruct pre; [|discriminate Hl].
      destruct p; [|discriminate Hl].
      repeat (apply elem_of_cons in Hp as [Hp|Hp]; [discriminate Hp|]).
      by apply elem_of_nil in Hp.
    + cbn [JS.truthy negb]. rewrite existsb_exists. exists p.
      split; [by apply list_elem_of_In|].
      apply includes_spec. eauto.
Qed.

(** A text is a command exactly when it starts, white space apart, with the
    sigil. *)
Lemma parseCommand_is_Some (text : jsstring) :
  is_Some (parseCommand text) <-> JS.startsWith (js "/") (JS.trim text) = true.
Proof.
  unfold parseCommand. destruct text as [|c text]; cbn [JS.truthy negb].
  - split; [intros [x H]; discriminate H | done].
  - destruct (JS.startsWith (js "/") (JS.trim (c :: text))); cbn [negb].
    + split; [done | intros _; by eexists].
    + split; [intros [x H]; discriminate H | done].
Qed.

(** The two parses of the design document. *)
Example parse_vote :
  parseCommand (js "/vote p1 1")
  = Some (mkCommand (js "vote") [js "p1"; js "1"] (js "/vote p1 1")).
Proof. reflexivity. Qed.

Example parse_free_text : parseCommand (js "hello there") = None.
Proof. reflexivity. Qed.

(** ** The effects of a send *)

Lemma callSendText_some (env : Env) f (to text : jsstring) (w : World) :
  sendText env = Some f ->
  callSendText env to text w =
  (if f (trace w) to text then Normal tt else Throw Rejection,
   mkWorld (POLLS w) (trace w ++ [Send to text (f (trace w) to text)])).
Proof. intros H. unfold callSendText. by rewrite H. Qed.

Lemma callSendText_polls (env : Env) (to text : jsstring) (w : World) :
  POLLS (callSendText env to text w).2 = POLLS w.
Proof. unfold callSendText. destruct (sendText env); reflexivity. Qed.

(** ** The dispatcher *)

(** C1, as the code has it: a command (a text that starts, white space
    apart, with the sigil) that contains a prohibited term gets the fixed
    warning and reaches no handler: the only event is the send of the
    warning, [handled] is [true] when that send resolves, and a rejected
    send is thrown to the caller. A text without the sigil is not looked at:
    [handled] is [false] and nothing is sent, whatever the text contains. *)
Theorem profanity_guard_covers_commands
    (env : Env) (f : list Event -> jsstring -> jsstring -> bool)
    (from text : jsstring) (w : World) :
  sendText env = Some f ->
  prohibited text ->
  handleCommand env from text w =
  if JS.startsWith (js "/") (JS.trim text)
  then (if f (trace w) from profanity_warning
        then Normal true else Throw Rejection,
        mkWorld (POLLS w)
          (trace w ++ [Send from profanity_warning
                         (f (trace w) from profanity_warning)]))
  else (Normal false, w).
Proof.
  intros Hs Hp. apply containsProfanity_spec in Hp.
  destruct (JS.startsWith (js "/") (JS.trim text)) eqn:Hsig.
  - apply parseCommand_is_Some in Hsig as [parsed Hparsed].
    unfold handleCommand. rewrite Hparsed, Hs, Hp.
    unfold bind. rewrite (callSendText_some _ f) by done.
    by destruct (f (trace w) from profanity_warning).
  - unfold handleCommand.
    destruct (parseCommand text) as [parsed|] eqn:Hparsed; [|done].
    assert (is_Some (parseCommand text)) as Hsome by (by eexists).
    apply parseCommand_is_Some in Hsome. congruence.
Qed.

Lemma profanity_guard_covers_commands_witness :
  handleCommand (fixed_env (fun _ => true) 0 0) (js "15550001")
    (js " /help BadWord2") initial
  = if JS.startsWith (js "/") (JS.trim (js " /help BadWord2"))
    then (Normal true,
          mkWorld ∅ [Send (js "15550001") profanity_warning true])
    else (Normal false, initial).
Proof.
  apply (profanity_guard_covers_commands (fixed_env (fun _ => true) 0 0)
           (fun _ _ _ => true) (js "15550001") (js " /help BadWord2")
           initial).
  - reflexivity.
  - apply containsProfanity_spec. vm_compute. reflexivity.
Defined.

(** C1, as the claim words it, fails: a text that is a prohibited term and
    nothing else is no command; [handled] is [false] and no warning is
    sent. *)
Lemma profanity_outside_command_passes :
  prohibited (js "badword1")
  /\ handleCommand (fixed_env (fun _ => true) 0 0) (js "15550001")
       (js "badword1") initial
     = (Normal false, initial).
Proof.
  split.
  - apply containsProfanity_spec. vm_compute. reflexivity.
  - vm_compute. reflexivity.
Qed.

(** X27. A handler found under the name of the command: whatever it throws
    is caught, logged and answered with the apology, and [handled] is
    [true]. *)
Lemma direct_dispatch_catches
    (env : Env) (f : list Event -> jsstring -> jsstring -> bool)
    (from text : jsstring) (w w' : World) (parsed : Command) (c : Callee)
    (e : Exn) :
  sendText env = Some f ->
  parseCommand text = Some parsed ->
  containsProfanity text = false ->
  HANDLERS (cmd parsed) = Some c ->
  call env c from (args parsed) w = (Throw e, w') ->
  handleCommand env from text w =
  (Normal true,
   mkWorld (POLLS w')
     (trace w' ++ [ConsoleError;
                   Send from handler_apology
                     (f (trace w' ++ [ConsoleError]) from handler_apology)])).
Proof.
  intros Hs Hparsed Hp Hh Hcall.
  unfold handleCommand. rewrite Hparsed, Hs, Hp, Hh.
  unfold bind, try_catch. rewrite Hcall.
  unfold emit. cbn [POLLS trace].
  rewrite (callSendText_some _ f) by done. cbn [POLLS trace].
  rewrite <- app_assoc.
  by destruct (f (trace w' ++ [ConsoleError]) from handler_apology).
Qed.

(** X28. A handler found through the selection form [cmd:<id>]: whatever it
    throws is caught and logged, [handled] is [true], and nothing is
    sent. *)
Lemma selection_dispatch_swallows
    (env : Env) (f : list Event -> jsstring -> jsstring -> bool)
    (from text : jsstring) (w w' : World) (parsed : Command)
    (target : CommandInfo) (c : Callee) (e : Exn) :
  sendText env = Some f ->
  parseCommand text = Some parsed ->
  containsProfanity text = false ->
  HANDLERS (cmd parsed) = None ->
  JS.startsWith (js "cmd:") (cmd parsed) = true ->
  List.find (fun i => bool_decide (id i = drop 4 (cmd parsed))) COMMANDS
  = Some target ->
  HANDLERS (removeFirstSlash (default [] (head (JS.split_ws (usage target)))))
  = Some c ->
  call env c from (drop 1 (JS.split_ws (usage target))) w = (Throw e, w') ->
  handleCommand env from text w =
  (Normal true, mkWorld (POLLS w') (trace w' ++ [ConsoleError])).
Proof.
  intros Hs Hparsed Hp Hnone Hsel Hfind Hh Hcall.
  unfold handleCommand. rewrite Hparsed, Hs, Hp, Hnone, Hsel, Hfind, Hh.
  unfold bind, try_catch. rewrite Hcall. reflexivity.
Qed.

(** C9 at [/cmd:vote], when the first send is rejected and the later ones
    resolve: the handler's usage reply fails, the exception is caught and
    logged, [handled] is [true], and no apology is sent; the same handler
    reached as [/vote] gets the apology. *)
Theorem selection_form_sends_no_apology :
  handleCommand (fixed_env (existsb is_send) 0 0) (js "15550001")
    (js "/cmd:vote") initial
  = (Normal true,
     mkWorld ∅
       [Invoke (Registered H_vote) (js "15550001")
          [js "<pollId>"; js "<optionIndex>"];
        Send (js "15550001") vote_usage false;
        ConsoleError])
  /\ handleCommand (fixed_env (existsb is_send) 0 0) (js "15550001")
       (js "/vote") initial
     = (Normal true,
        mkWorld ∅
          [Invoke (Registered H_vote) (js "15550001") [];
           Send (js "15550001") vote_usage false;
           ConsoleError;
           Send (js "15550001") handler_apology true]).
Proof. split; vm_compute; reflexivity. Qed.

(** ** Polls: the state a handler leaves *)

Lemma bind_polls_unchanged {A B} (m : M A) (k : A -> M B) :
  (forall w, POLLS (m w).2 = POLLS w) ->
  (forall a w, POLLS (k a w).2 = POLLS w) ->
  forall w, POLLS (bind m k w).2 = POLLS w.
Proof.
  intros Hm Hk w. unfold bind. specialize (Hm w).
  destruct (m w) as [[a|e] w']; simpl in *; [|done].
  by rewrite Hk.
Qed.

(** What follows a change of a poll, when it changes no poll itself. *)
Lemma setPoll_then {B} (pid : jsstring) (p : Poll) (k : M B) (w : World) :
  (forall w', POLLS (k w').2 = POLLS w') ->
  POLLS (bind (setPoll pid p) (fun _ => k) w).2 = <[pid := p]> (POLLS w).
Proof. intros Hk. unfold bind, setPoll. by rewrite Hk. Qed.

Lemma setPoll_bind {B} (pid : jsstring) (p : Poll) (k : M B) (w : World) :
  bind (setPoll pid p) (fun _ => k) w
  = k (mkWorld (<[pid := p]> (POLLS w)) (trace w)).
Proof. reflexivity. Qed.

Lemma send_then_polls {B} (env : Env) (to text : jsstring) (k : M B) :
  (forall w, POLLS (k w).2 = POLLS w) ->
  forall w, POLLS (bind (callSendText env to text) (fun _ => k) w).2 = POLLS w.
Proof.
  intros Hk. apply bind_polls_unchanged; [apply callSendText_polls|done].
Qed.

(** The polls after [cmd_poll]: as before, or with the new poll under the
    generated identifier. *)
Lemma cmd_poll_polls (env : Env) (from : jsstring) (args : list jsstring)
    (w : World) :
  POLLS (after (cmd_poll env from args) w) =
  match poll_match (JS.join (js " ") args) with
  | Some (q, opts) =>
      if (length opts <? 2)%nat then POLLS w
      else <[generatePollId (DateNow env w) (random1000 env w) :=
               mkPoll q opts (empty_votes (length opts)) (normalizeBare from)]>
             (POLLS w)
  | None => POLLS w
  end.
Proof.
  unfold after, cmd_poll.
  destruct (poll_match _) as [[q opts]|]; [|apply callSendText_polls].
  destruct (length opts <? 2)%nat; [apply callSendText_polls|].
  apply setPoll_then. intros w'. apply callSendText_polls.
Qed.

(** The polls after [cmd_vote]: the voter is taken out of every array of
    the poll as soon as the poll is found, and put into the array of the
    option only when the index names one. *)
Lemma cmd_vote_polls (env : Env) (from : jsstring) (args : list jsstring)
    (w : World) :
  POLLS (after (cmd_vote env from args) w) =
  match JS.truthy (default [] (args !! 0%nat)),
        parseInt10_arg (args !! 1%nat) with
  | true, Some idx =>
      match POLLS w !! default [] (args !! 0%nat) with
      | None => POLLS w
      | Some poll =>
          let retracted := removeFirst (normalizeBare from) <$> votes poll in
          match retracted !! idx with
          | None =>
              <[default [] (args !! 0%nat) := with_votes poll retracted]>
                (POLLS w)
          | Some arr =>
              <[default [] (args !! 0%nat) :=
                  with_votes poll
                    (<[idx := arr ++ [normalizeBare from]]> retracted)]>
                (POLLS w)
          end
      end
  | _, _ => POLLS w
  end.
Proof.
  unfold after, cmd_vote.
  destruct (JS.truthy _); [|apply callSendText_polls].
  destruct (parseInt10_arg _) as [idx|]; [|apply callSendText_polls].
  unfold bind at 1, getPolls.
  destruct (POLLS w !! _) as [poll|]; [|apply callSendText_polls].
  cbn zeta. cbn [with_votes votes].
  destruct ((removeFirst (normalizeBare from) <$> votes poll) !! idx) as [arr|].
  - rewrite setPoll_bind, setPoll_then.
    + cbn [POLLS]. by rewrite insert_insert_eq.
    + apply send_then_polls. intros w'.
      destruct (tally _); [apply callSendText_polls|done].
  - apply setPoll_then. intros w'. apply callSendText_polls.
Qed.

(** ** Polls: one option per voter *)

Lemma removeFirst_elem (v x : jsstring) (a : list jsstring) :
  x ∈ removeFirst v a -> x ∈ a.
Proof.
  induction a as [|y a IH]; simpl; [done|].
  destruct (decide (y = v)); rewrite !elem_of_cons; tauto.
Qed.

Lemma removeFirst_NoDup (v : jsstring) (a : list jsstring) :
  NoDup a -> NoDup (removeFirst v a).
Proof.
  induction 1 as [|y a Hy Ha IH]; simpl; [constructor|].
  destruct (decide (y = v)); [done|].
  constructor; [|done]. intros Hin. by apply Hy, (removeFirst_elem v).
Qed.

Lemma removeFirst_not_elem (v : jsstring) (a : list jsstring) :
  NoDup a -> v ∉ removeFirst v a.
Proof.
  induction 1 as [|y a Hy Ha IH]; simpl; [apply not_elem_of_nil|].
  destruct (decide (y = v)) as [->|Hne]; [done|].
  rewrite elem_of_cons. intros [->|Hin]; done.
Qed.

(** The first step of a vote: the voter is in no array any more. *)
Lemma retract_ok (v : jsstring) (p : Poll) :
  poll_ok p ->
  poll_ok (with_votes p (removeFirst v <$> votes p))
  /\ (forall i a, (removeFirst v <$> votes p) !! i = Some a -> v ∉ a).
Proof.
  intros [Hnd Huniq]. split; [split|]; cbn [with_votes votes].
  - intros i a. rewrite lookup_fmap.
    destruct (votes p !! i) as [a0|] eqn:E; [|done].
    intros [= <-]. eapply removeFirst_NoDup, Hnd, E.
  - intros x i j a b. rewrite !lookup_fmap.
    destruct (votes p !! i) as [a0|] eqn:Ei; [|done].
    destruct (votes p !! j) as [b0|] eqn:Ej; [|done].
    intros [= <-] [= <-] Ha Hb.
    eapply Huniq; eauto using removeFirst_elem.
  - intros i a. rewrite lookup_fmap.
    destruct (votes p !! i) as [a0|] eqn:E; [|done].
    intros [= <-]. eapply removeFirst_not_elem, Hnd, E.
Qed.

(** The second step: the voter, who is in no array, joins one. *)
Lemma record_ok (v : jsstring) (p : Poll) (idx : Z) (arr : list jsstring) :
  poll_ok p ->
  (forall i a, votes p !! i = Some a -> v ∉ a) ->
  votes p !! idx = Some arr ->
  poll_ok (with_votes p (<[idx := arr ++ [v]]> (votes p))).
Proof.
  intros [Hnd Huniq] Hout Harr. split; cbn [with_votes votes].
  - intros i a. destruct (decide (idx = i)) as [<-|Hne].
    + rewrite lookup_insert_eq. intros [= <-].
      apply NoDup_app. split; [eapply Hnd, Harr|].
      split; [|apply NoDup_singleton].
      intros x Hx ->%list_elem_of_singleton. by eapply Hout.
    + rewrite lookup_insert_ne by done. apply Hnd.
  - intros x i j a b Ha Hb Hxa Hxb.
    destruct (decide (i = j)) as [|Hij]; [done|]. exfalso.
    destruct (decide (idx = i)) as [<-|Hi].
    + rewrite lookup_insert_eq in Ha. injection Ha as <-.
      rewrite lookup_insert_ne in Hb by done.
      apply elem_of_app in Hxa as [Hxa | ->%list_elem_of_singleton].
      * apply Hij. eapply Huniq; eauto.
      * by eapply Hout.
    + rewrite lookup_insert_ne in Ha by done.
      destruct (decide (idx = j)) as [<-|Hj].
      * rewrite lookup_insert_eq in Hb. injection Hb as <-.
        apply elem_of_app in Hxb as [Hxb | ->%list_elem_of_singleton].
        -- apply Hij. eapply Huniq; eauto.
        -- by eapply Hout.
      * rewrite lookup_insert_ne in Hb by done.
        apply Hij. eapply Huniq; eauto.
Qed.

Lemma fold_empty_votes (l : list nat) (m : gmap Z (list jsstring)) :
  (forall i a, m !! i = Some a -> a = []) ->
  forall i a,
    fold_left (fun m i => <[Z.of_nat i := []]> m) l m !! i = Some a -> a = [].
Proof.
  revert m. induction l as [|n l IH]; intros m Hm; simpl; [done|].
  apply IH. intros i a. destruct (decide (Z.of_nat n = i)) as [<-|Hne].
  - rewrite lookup_insert_eq. by intros [= <-].
  - rewrite lookup_insert_ne by done. apply Hm.
Qed.

Lemma empty_votes_empty (n : nat) (i : Z) (a : list jsstring) :
  empty_votes n !! i = Some a -> a = [].
Proof. apply fold_empty_votes. intros j b. by rewrite lookup_empty. Qed.

Lemma new_poll_ok (q : jsstring) (opts : list jsstring) (c : jsstring) :
  poll_ok (mkPoll q opts (empty_votes (length opts)) c).
Proof.
  split; cbn [votes].
  - intros i a ->%empty_votes_empty. constructor.
  - intros v i j a b ->%empty_votes_empty _ Hv. by apply elem_of_nil in Hv.
Qed.

Lemma polls_ok_insert (polls : gmap jsstring Poll) (pid : jsstring) (p : Poll) :
  polls_ok polls -> poll_ok p -> polls_ok (<[pid := p]> polls).
Proof.
  intros Hok Hp pid' p'. destruct (decide (pid = pid')) as [<-|Hne].
  - rewrite lookup_insert_eq. by intros [= <-].
  - rewrite lookup_insert_ne by done. apply Hok.
Qed.

Lemma cmd_poll_ok (env : Env) (from : jsstring) (args : list jsstring)
    (w : World) :
  polls_ok (POLLS w) -> polls_ok (POLLS (after (cmd_poll env from args) w)).
Proof.
  intros Hok. rewrite cmd_poll_polls.
  destruct (poll_match _) as [[q opts]|]; [|done].
  destruct (length opts <? 2)%nat; [done|].
  apply polls_ok_insert; [done|apply new_poll_ok].
Qed.

Lemma cmd_vote_ok (env : Env) (from : jsstring) (args : list jsstring)
    (w : World) :
  polls_ok (POLLS w) -> polls_ok (POLLS (after (cmd_vote env from args) w)).
Proof.
  intros Hok. rewrite cmd_vote_polls.
  destruct (JS.truthy _); [|done].
  destruct (parseInt10_arg _) as [idx|]; [|done].
  destruct (POLLS w !! _) as [poll|] eqn:Hpoll; [|done].
  destruct (retract_ok (normalizeBare from) poll (Hok _ _ Hpoll))
    as [Hret Hout].
  cbn zeta.
  destruct ((removeFirst (normalizeBare from) <$> votes poll) !! idx)
    as [arr|] eqn:Hidx.
  - apply polls_ok_insert; [done|].
    exact (record_ok (normalizeBare from)
             (with_votes poll (removeFirst (normalizeBare from) <$> votes poll))
             idx arr Hret Hout Hidx).
  - by apply polls_ok_insert.
Qed.

Lemma poll_run_ok (env : Env) (cs : list PollCmd) (w : World) :
  polls_ok (POLLS w) -> polls_ok (POLLS (poll_run env cs w)).
Proof.
  unfold poll_run. revert w.
  induction cs as [|c cs IH]; intros w Hok; simpl; [done|].
  apply IH. destruct c; simpl; [by apply cmd_poll_ok | by apply cmd_vote_ok].
Qed.

(** C5: after any sequence of poll creations and votes, by whatever senders
    and whether the calls succeed, fail or throw, a voter is in the array of
    at most one option of a poll, and at most once there. *)
Theorem voter_in_at_most_one_option
    (env : Env) (cs : list PollCmd) (pid : jsstring) (p : Poll)
    (v : jsstring) (i j : Z) (a b : list jsstring) :
  POLLS (poll_run env cs initial) !! pid = Some p ->
  votes p !! i = Some a ->
  votes p !! j = Some b ->
  v ∈ a -> v ∈ b ->
  i = j /\ NoDup a.
Proof.
  intros Hp Ha Hb Hva Hvb.
  assert (polls_ok (POLLS (poll_run env cs initial))) as Hok.
  { apply poll_run_ok. intros pid' p'. cbn [initial POLLS].
    by rewrite lookup_empty. }
  destruct (Hok _ _ Hp) as [Hnd Huniq]. split; eauto.
Qed.

Lemma voter_in_at_most_one_option_witness :
  POLLS (poll_run (fixed_env (fun _ => true) 1700000000000 42)
           [DoPoll (js "15550001")
              [quote (js "Q"); quote (js "A"); quote (js "B")];
            DoVote (js "15550001") [js "poll_loyw3v28_42"; js "0"];
            DoVote (js "15550001") [js "poll_loyw3v28_42"; js "1"]]
           initial) !! js "poll_loyw3v28_42"
  = Some (mkPoll (js "Q") [js "A"; js "B"]
            (<[1 := [js "15550001"]]> (<[0 := []]> ∅)) (js "15550001"))
  /\ (1 = 1 /\ NoDup [js "15550001"]).
Proof.
  assert (POLLS (poll_run (fixed_env (fun _ => true) 1700000000000 42)
           [DoPoll (js "15550001")
              [quote (js "Q"); quote (js "A"); quote (js "B")];
            DoVote (js "15550001") [js "poll_loyw3v28_42"; js "0"];
            DoVote (js "15550001") [js "poll_loyw3v28_42"; js "1"]]
           initial) !! js "poll_loyw3v28_42"
  = Some (mkPoll (js "Q") [js "A"; js "B"]
            (<[1 := [js "15550001"]]> (<[0 := []]> ∅)) (js "15550001")))
    as Hp by (vm_compute; reflexivity).
  split; [exact Hp|].
  apply (voter_in_at_most_one_option _ _ _ _ (js "15550001") 1 1
           [js "15550001"] [js "15550001"] Hp).
  - vm_compute. reflexivity.
  - vm_compute. reflexivity.
  - apply list_elem_of_singleton. reflexivity.
  - apply list_elem_of_singleton. reflexivity.
Defined.

(** X30. A vote for an index that names no option: the reply is the error
    text, and the voter has been taken out of the arrays of the poll all
    the same. *)
Lemma vote_out_of_range_retracts
    (env : Env) (f : list Event -> jsstring -> jsstring -> bool)
    (from : jsstring) (args : list jsstring) (w : World)
    (pid : jsstring) (idx : Z) (poll : Poll) :
  sendText env = Some f ->
  args !! 0%nat = Some pid -> pid <> [] ->
  parseInt10_arg (args !! 1%nat) = Some idx ->
  POLLS w !! pid = Some poll ->
  votes poll !! idx = None ->
  cmd_vote env from args w =
  (if f (trace w) from invalid_option then Normal tt else Throw Rejection,
   mkWorld
     (<[pid := with_votes poll (removeFirst (normalizeBare from) <$> votes poll)]>
        (POLLS w))
     (trace w ++ [Send from invalid_option (f (trace w) from invalid_option)])).
Proof.
  intros Hs Hpid Hne Hidx Hpoll Hout. unfold cmd_vote.
  rewrite Hpid, Hidx.
  destruct pid as [|c pid]; [done|].
  cbn [default from_option Datatypes.id JS.truthy].
  unfold bind at 1, getPolls. cbv beta iota. rewrite Hpoll.
  cbn zeta. cbn [with_votes votes]. rewrite lookup_fmap, Hout.
  cbn [fmap option_fmap option_map].
  rewrite setPoll_bind. by rewrite (callSendText_some _ f).
Qed.

(** C2 at a vote for option 7 of a poll of two options: the voter's earlier
    vote for option 0 is gone after the call that answers with the error
    text. *)
Theorem failed_vote_drops_prior_vote :
  voters
    (poll_run (fixed_env (fun _ => true) 1700000000000 42)
       [DoPoll (js "15550001") [quote (js "Q"); quote (js "A"); quote (js "B")];
        DoVote (js "15550001") [js "poll_loyw3v28_42"; js "0"]]
       initial)
    (js "poll_loyw3v28_42") 0
  = [js "15550001"]
  /\ last (trace
       (poll_run (fixed_env (fun _ => true) 1700000000000 42)
          [DoPoll (js "15550001")
             [quote (js "Q"); quote (js "A"); quote (js "B")];
           DoVote (js "15550001") [js "poll_loyw3v28_42"; js "0"];
           DoVote (js "15550001") [js "poll_loyw3v28_42"; js "7"]]
          initial))
     = Some (Send (js "15550001") invalid_option true)
  /\ voters
       (poll_run (fixed_env (fun _ => true) 1700000000000 42)
          [DoPoll (js "15550001")
             [quote (js "Q"); quote (js "A"); quote (js "B")];
           DoVote (js "15550001") [js "poll_loyw3v28_42"; js "0"];
           DoVote (js "15550001") [js "poll_loyw3v28_42"; js "7"]]
          initial)
       (js "poll_loyw3v28_42") 0
     = [].
Proof. repeat split; vm_compute; reflexivity. Qed.

(** ** Polls: the expression of [cmd_poll] *)

Lemma while_stop {A} (f : A -> bool) (a rest : list A) :
  Forall (fun x => f x = true) a ->
  match rest with [] => True | x :: _ => f x = false end ->
  JS.takeWhile f (a ++ rest) = a /\ JS.dropWhile f (a ++ rest) = rest.
Proof.
  intros Ha Hr. induction Ha as [|x a Hx Ha IH]; simpl.
  - destruct rest as [|y rest]; [done|]. simpl. by rewrite Hr.
  - rewrite Hx. destruct IH as [-> ->]. done.
Qed.

Lemma group_no_quote (g : jsstring) :
  dquote ∉ g -> Forall (fun c => negb (c =? dquote)%N = true) g.
Proof.
  intros Hg. apply Forall_forall. intros c Hc.
  apply negb_true_iff, N.eqb_neq. intros ->. done.
Qed.

Lemma quoted_quote (g rest : jsstring) :
  group_ok g -> quoted (quote g ++ rest) = Some (g, rest).
Proof.
  intros [Hne Hq]. unfold quote, quoted. cbn [app]. rewrite N.eqb_refl.
  rewrite <- app_assoc. cbn [app].
  destruct (while_stop (fun c => negb (c =? dquote)%N) g (dquote :: rest))
    as [-> ->]; [by apply group_no_quote | done |].
  by destruct g.
Qed.

Lemma ws_quoted_quote (s g rest : jsstring) :
  blank s -> group_ok g -> ws_quoted (s ++ quote g ++ rest) = Some (g, rest).
Proof.
  intros Hs Hg. unfold ws_quoted.
  destruct (while_stop JS.isWhite s (quote g ++ rest)) as [_ ->];
    [done | done |].
  by apply quoted_quote.
Qed.

Lemma optional_groups_next (n : nat) (s g rest : jsstring) :
  blank s -> group_ok g ->
  optional_groups (S n) (s ++ quote g ++ rest) = g :: optional_groups n rest.
Proof. intros Hs Hg. cbn [optional_groups]. by rewrite ws_quoted_quote. Qed.

Lemma quoted_not_quote (c : N) (s : jsstring) :
  c <> dquote -> quoted (c :: s) = None.
Proof. intros Hc. cbn [quoted]. apply N.eqb_neq in Hc. by rewrite Hc. Qed.

(** Code units before the first double quote are passed over. *)
Lemma poll_match_skip (pre s : jsstring) :
  dquote ∉ pre -> poll_match (pre ++ s) = poll_match s.
Proof.
  induction pre as [|c pre IH]; intros Hpre; [done|].
  apply not_elem_of_cons in Hpre as [Hc Hpre].
  cbn [app poll_match]. unfold match_at.
  rewrite quoted_not_quote by done. by apply IH.
Qed.

Lemma poll_match_at (s : jsstring) (r : jsstring * list jsstring) :
  match_at s = Some r -> poll_match s = Some r.
Proof. intros H. destruct s; cbn [poll_match]; by rewrite H. Qed.

(** A quoted question and a quoted option: the expression matches there,
    and the options that follow are read from what comes after. *)
Lemma poll_match_found (pre q s1 o1 tail : jsstring) :
  dquote ∉ pre -> group_ok q -> blank s1 -> group_ok o1 ->
  poll_match (pre ++ quote q ++ s1 ++ quote o1 ++ tail)
  = Some (q, o1 :: optional_groups 3 tail).
Proof.
  intros Hpre Hq Hs1 Ho1. rewrite poll_match_skip by done.
  assert (match_at (quote q ++ s1 ++ quote o1 ++ tail)
          = Some (q, o1 :: optional_groups 3 tail)) as Hm.
  { unfold match_at. rewrite quoted_quote by done.
    by rewrite ws_quoted_quote. }
  by apply poll_match_at.
Qed.

(** A quoted question alone: the expression matches nowhere. *)
Lemma poll_match_question_only (q : jsstring) :
  group_ok q -> poll_match (quote q) = None.
Proof.
  intros [Hne Hq].
  assert (poll_match [dquote] = None) as Hlast by reflexivity.
  assert (poll_match (q ++ [dquote]) = None) as Htail.
  { rewrite poll_match_skip; done. }
  unfold quote. cbn [poll_match]. rewrite Htail.
  replace (dquote :: q ++ [dquote]) with (quote q ++ []) by (by rewrite app_nil_r).
  unfold match_at. by rewrite quoted_quote.
Qed.

(** ** Polls: creation *)

(** Settles [group_ok] for a text that is given. *)
Ltac group_ok_tac :=
  split; [discriminate | apply (bool_decide_unpack _); vm_compute; exact I].

Lemma cmd_poll_unmatched (env : Env) (from : jsstring) (args : list jsstring)
    (w : World) :
  poll_match (JS.join (js " ") args) = None ->
  cmd_poll env from args w = callSendText env from poll_usage w.
Proof. intros H. unfold cmd_poll. by rewrite H. Qed.

Lemma cmd_poll_too_few (env : Env) (from : jsstring) (args : list jsstring)
    (w : World) (q : jsstring) (opts : list jsstring) :
  poll_match (JS.join (js " ") args) = Some (q, opts) ->
  (length opts < 2)%nat ->
  cmd_poll env from args w = callSendText env from poll_too_few w.
Proof.
  intros H Hl. unfold cmd_poll. rewrite H.
  apply Nat.ltb_lt in Hl. by rewrite Hl.
Qed.

Lemma cmd_poll_creates (env : Env) (from : jsstring) (args : list jsstring)
    (w : World) (q : jsstring) (opts : list jsstring) :
  poll_match (JS.join (js " ") args) = Some (q, opts) ->
  (2 <= length opts)%nat ->
  cmd_poll env from args w =
  callSendText env from
    (poll_created (generatePollId (DateNow env w) (random1000 env w)) q opts)
    (mkWorld
       (<[generatePollId (DateNow env w) (random1000 env w) :=
            mkPoll q opts (empty_votes (length opts)) (normalizeBare from)]>
          (POLLS w))
       (trace w)).
Proof.
  intros H Hl. unfold cmd_poll. rewrite H.
  apply Nat.ltb_ge in Hl. rewrite Hl. apply setPoll_bind.
Qed.

(** C7, as the code has it. A quoted question alone gets the usage text and
    a question with one option gets the text that asks for two options;
    neither stores a poll. A question with two options is stored, with an
    empty array of voters under the indices 0 and 1 and so a tally of zero
    for both, under the identifier made of the clock and the random number,
    and the confirmation is sent. Whether that identifier is in use is not
    looked at. *)
Theorem poll_creation_needs_two_options
    (env : Env) (from q a b : jsstring) (w : World) :
  group_ok q -> group_ok a -> group_ok b ->
  cmd_poll env from [quote q] w = callSendText env from poll_usage w
  /\ POLLS (after (cmd_poll env from [quote q]) w) = POLLS w
  /\ cmd_poll env from [quote q; quote a] w
     = callSendText env from poll_too_few w
  /\ POLLS (after (cmd_poll env from [quote q; quote a]) w) = POLLS w
  /\ cmd_poll env from [quote q; quote a; quote b] w
     = callSendText env from
         (poll_created (generatePollId (DateNow env w) (random1000 env w))
            q [a; b])
         (mkWorld
            (<[generatePollId (DateNow env w) (random1000 env w) :=
                 mkPoll q [a; b] (<[1 := []]> (<[0 := []]> ∅))
                   (normalizeBare from)]> (POLLS w))
            (trace w))
  /\ POLLS (after (cmd_poll env from [quote q; quote a; quote b]) w)
     = <[generatePollId (DateNow env w) (random1000 env w) :=
           mkPoll q [a; b] (<[1 := []]> (<[0 := []]> ∅))
             (normalizeBare from)]> (POLLS w)
  /\ tally (mkPoll q [a; b] (<[1 := []]> (<[0 := []]> ∅)) (normalizeBare from))
     = Some [(a, 0%nat); (b, 0%nat)].
Proof.
  intros Hq Ha Hb.
  assert (poll_match (JS.join (js " ") [quote q]) = None) as H0
    by (by apply poll_match_question_only).
  assert (poll_match (JS.join (js " ") [quote q; quote a]) = Some (q, [a]))
    as H1.
  { cbn [JS.join].
    replace (quote q ++ js " " ++ quote a)
      with ([] ++ quote q ++ js " " ++ quote a ++ [])
      by (by rewrite app_nil_r).
    rewrite poll_match_found; try done.
    - apply not_elem_of_nil.
    - repeat constructor. }
  assert (poll_match (JS.join (js " ") [quote q; quote a; quote b])
          = Some (q, [a; b])) as H2.
  { cbn [JS.join].
    replace (quote q ++ js " " ++ quote a ++ js " " ++ quote b)
      with ([] ++ quote q ++ js " " ++ quote a ++ js " " ++ quote b ++ [])
      by (by rewrite app_nil_r).
    rewrite poll_match_found; try done.
    - rewrite optional_groups_next; [done| |done]. repeat constructor.
    - apply not_elem_of_nil.
    - repeat constructor. }
  split; [by apply cmd_poll_unmatched|].
  split; [by rewrite cmd_poll_polls, H0|].
  split; [by eapply cmd_poll_too_few; [exact H1 | constructor]|].
  split; [by rewrite cmd_poll_polls, H1|].
  split; [by rewrite (cmd_poll_creates _ _ _ _ _ _ H2)|].
  split; [by rewrite cmd_poll_polls, H2|].
  reflexivity.
Qed.

Lemma poll_creation_needs_two_options_witness :
  cmd_poll (fixed_env (fun _ => true) 1700000000000 42) (js "15550001")
    [quote (js "Lunch?")] initial
  = callSendText (fixed_env (fun _ => true) 1700000000000 42)
      (js "15550001") poll_usage initial
  /\ POLLS (after (cmd_poll (fixed_env (fun _ => true) 1700000000000 42)
                     (js "15550001") [quote (js "Lunch?")]) initial) = ∅
  /\ cmd_poll (fixed_env (fun _ => true) 1700000000000 42) (js "15550001")
       [quote (js "Lunch?"); quote (js "A")] initial
     = callSendText (fixed_env (fun _ => true) 1700000000000 42)
         (js "15550001") poll_too_few initial
  /\ POLLS (after (cmd_poll (fixed_env (fun _ => true) 1700000000000 42)
                     (js "15550001") [quote (js "Lunch?"); quote (js "A")])
              initial) = ∅
  /\ cmd_poll (fixed_env (fun _ => true) 1700000000000 42) (js "15550001")
       [quote (js "Lunch?"); quote (js "A"); quote (js "B")] initial
     = callSendText (fixed_env (fun _ => true) 1700000000000 42)
         (js "15550001")
         (poll_created (generatePollId 1700000000000 42) (js "Lunch?")
            [js "A"; js "B"])
         (mkWorld
            (<[generatePollId 1700000000000 42 :=
                 mkPoll (js "Lunch?") [js "A"; js "B"]
                   (<[1 := []]> (<[0 := []]> ∅))
                   (normalizeBare (js "15550001"))]> ∅)
            [])
  /\ POLLS (after (cmd_poll (fixed_env (fun _ => true) 1700000000000 42)
                     (js "15550001")
                     [quote (js "Lunch?"); quote (js "A"); quote (js "B")])
              initial)
     = <[generatePollId 1700000000000 42 :=
           mkPoll (js "Lunch?") [js "A"; js "B"]
             (<[1 := []]> (<[0 := []]> ∅))
             (normalizeBare (js "15550001"))]> ∅
  /\ tally (mkPoll (js "Lunch?") [js "A"; js "B"]
              (<[1 := []]> (<[0 := []]> ∅)) (normalizeBare (js "15550001")))
     = Some [(js "A", 0%nat); (js "B", 0%nat)].
Proof.
  apply (poll_creation_needs_two_options
           (fixed_env (fun _ => true) 1700000000000 42) (js "15550001")
           (js "Lunch?") (js "A") (js "B") initial);
    group_ok_tac.
Defined.

(** C7, as the claim words it, fails on the fresh identifier: when the
    clock and the random number read the same for two creations, the second
    poll gets the identifier of the first and takes its place. *)
Lemma poll_identifier_not_fresh :
  POLLS (poll_run (fixed_env (fun _ => true) 1700000000000 42)
           [DoPoll (js "15550001")
              [quote (js "Lunch?"); quote (js "A"); quote (js "B")]]
           initial) !! js "poll_loyw3v28_42"
  = Some (mkPoll (js "Lunch?") [js "A"; js "B"]
            (<[1 := []]> (<[0 := []]> ∅)) (js "15550001"))
  /\ POLLS (poll_run (fixed_env (fun _ => true) 1700000000000 42)
              [DoPoll (js "15550001")
                 [quote (js "Lunch?"); quote (js "A"); quote (js "B")];
               DoPoll (js "15550002")
                 [quote (js "Dinner?"); quote (js "A"); quote (js "B")]]
              initial)
     = {[ js "poll_loyw3v28_42" :=
            mkPoll (js "Dinner?") [js "A"; js "B"]
              (<[1 := []]> (<[0 := []]> ∅)) (js "15550002") ]}.
Proof. split; vm_compute; reflexivity. Qed.

(** C10: a question followed by five quoted options or more makes a poll of
    the first four. The expression has four groups for options, so what
    comes after the fourth option is not read; the poll is stored with four
    options and four empty arrays of voters, and the one text sent is the
    confirmation that lists the four. *)
Theorem poll_keeps_first_four_options
    (env : Env) (from : jsstring) (args : list jsstring) (w : World)
    (pre q o1 o2 o3 o4 o5 s1 s2 s3 s4 s5 more : jsstring) :
  JS.join (js " ") args
  = pre ++ quote q ++ s1 ++ quote o1 ++ s2 ++ quote o2 ++ s3 ++ quote o3
        ++ s4 ++ quote o4 ++ s5 ++ quote o5 ++ more ->
  dquote ∉ pre ->
  group_ok q -> group_ok o1 -> group_ok o2 -> group_ok o3 -> group_ok o4 ->
  group_ok o5 ->
  blank s1 -> blank s2 -> blank s3 -> blank s4 -> blank s5 ->
  cmd_poll env from args w
  = callSendText env from
      (poll_created (generatePollId (DateNow env w) (random1000 env w))
         q [o1; o2; o3; o4])
      (mkWorld
         (<[generatePollId (DateNow env w) (random1000 env w) :=
              mkPoll q [o1; o2; o3; o4] (empty_votes 4) (normalizeBare from)]>
            (POLLS w))
         (trace w))
  /\ tally (mkPoll q [o1; o2; o3; o4] (empty_votes 4) (normalizeBare from))
     = Some [(o1, 0%nat); (o2, 0%nat); (o3, 0%nat); (o4, 0%nat)].
Proof.
  intros Hj Hpre Hq H1 H2 H3 H4 H5 B1 B2 B3 B4 B5.
  split; [|reflexivity].
  apply (cmd_poll_creates env from args w q [o1; o2; o3; o4]);
    [|simpl; lia].
  rewrite Hj, poll_match_found by done.
  by rewrite !optional_groups_next.
Qed.

Lemma poll_keeps_first_four_options_witness :
  cmd_poll (fixed_env (fun _ => true) 1700000000000 42) (js "15550001")
    [quote (js "Lunch?"); quote (js "A"); quote (js "B"); quote (js "C");
     quote (js "D"); quote (js "E"); quote (js "F")] initial
  = callSendText (fixed_env (fun _ => true) 1700000000000 42) (js "15550001")
      (poll_created (generatePollId 1700000000000 42) (js "Lunch?")
         [js "A"; js "B"; js "C"; js "D"])
      (mkWorld
         (<[generatePollId 1700000000000 42 :=
              mkPoll (js "Lunch?") [js "A"; js "B"; js "C"; js "D"]
                (empty_votes 4) (normalizeBare (js "15550001"))]> ∅)
         [])
  /\ tally (mkPoll (js "Lunch?") [js "A"; js "B"; js "C"; js "D"]
              (empty_votes 4) (normalizeBare (js "15550001")))
     = Some [(js "A", 0%nat); (js "B", 0%nat); (js "C", 0%nat);
             (js "D", 0%nat)].
Proof.
  apply (poll_keeps_first_four_options
           (fixed_env (fun _ => true) 1700000000000 42) (js "15550001")
           [quote (js "Lunch?"); quote (js "A"); quote (js "B");
            quote (js "C"); quote (js "D"); quote (js "E"); quote (js "F")]
           initial
           [] (js "Lunch?") (js "A") (js "B") (js "C") (js "D") (js "E")
           (js " ") (js " ") (js " ") (js " ") (js " ")
           (js " " ++ quote (js "F"))).
  - vm_compute. reflexivity.
  - apply not_elem_of_nil.
  - group_ok_tac.
  - group_ok_tac.
  - group_ok_tac.
  - group_ok_tac.
  - group_ok_tac.
  - group_ok_tac.
  - repeat constructor.
  - repeat constructor.
  - repeat constructor.
  - repeat constructor.
  - repeat constructor.
Defined.

(** ** Polls: a vote that is recorded *)

(** X29. After a vote for an option of the poll, in a state where no voter
    is in two arrays, the voter is in the array of that option and in no
    other. *)
Lemma vote_in_range_moves_voter
    (env : Env) (from : jsstring) (args : list jsstring) (w : World)
    (pid : jsstring) (idx : Z) (poll : Poll) (arr : list jsstring) :
  polls_ok (POLLS w) ->
  args !! 0%nat = Some pid -> pid <> [] ->
  parseInt10_arg (args !! 1%nat) = Some idx ->
  POLLS w !! pid = Some poll ->
  votes poll !! idx = Some arr ->
  normalizeBare from ∈ voters (after (cmd_vote env from args) w) pid idx
  /\ forall j, j <> idx ->
       normalizeBare from ∉ voters (after (cmd_vote env from args) w) pid j.
Proof.
  intros Hok Hpid Hne Hidx Hpoll Harr.
  destruct (retract_ok (normalizeBare from) poll (Hok _ _ Hpoll))
    as [_ Hout].
  unfold voters. rewrite cmd_vote_polls, Hpid, Hidx.
  destruct pid as [|c pid]; [done|].
  cbn [default from_option Datatypes.id JS.truthy]. rewrite Hpoll.
  cbn zeta. rewrite lookup_fmap, Harr.
  cbn [fmap option_fmap option_map].
  rewrite lookup_insert_eq. cbn [with_votes votes]. split.
  - rewrite lookup_insert_eq. cbn [default from_option Datatypes.id].
    apply elem_of_app. right. by apply list_elem_of_singleton.
  - intros j Hj. rewrite lookup_insert_ne by done.
    destruct ((removeFirst (normalizeBare from) <$> votes poll) !! j)
      as [b|] eqn:Eb; cbn [default from_option Datatypes.id].
    + by eapply Hout.
    + apply not_elem_of_nil.
Qed.

(** ** Polls: the invariant under the dispatcher *)

Section Dispatch.

Variable env : Env.

(** Of the handlers that are not modelled, none writes to [POLLS] (the
    source reads it once, in [cmd_stats]). *)
Hypothesis external_keeps_polls :
  forall h from args w, POLLS (external env h from args w).2 = POLLS w.

Lemma call_ok (c : Callee) (from : jsstring) (args : list jsstring)
    (w : World) :
  polls_ok (POLLS w) -> polls_ok (POLLS (call env c from args w).2).
Proof.
  intros Hok. destruct c as [h| |]; [|done|done].
  unfold call, bind, emit. cbv beta iota.
  destruct h; cbv beta iota;
    first [ exact (cmd_poll_ok env from args
                     (mkWorld (POLLS w)
                        (trace w ++ [Invoke (Registered H_poll) from args]))
                     Hok)
          | exact (cmd_vote_ok env from args
                     (mkWorld (POLLS w)
                        (trace w ++ [Invoke (Registered H_vote) from args]))
                     Hok)
          | rewrite external_keeps_polls; exact Hok ].
Qed.

(** Whatever text comes in, [handleCommand] keeps every voter in at most
    one array of every poll. *)
Lemma handleCommand_ok (from text : jsstring) (w : World) :
  polls_ok (POLLS w) ->
  polls_ok (POLLS (handleCommand env from text w).2).
Proof.
  intros Hok. unfold handleCommand.
  destruct (parseCommand text) as [parsed|]; [|done].
  destruct (sendText env) as [f|] eqn:Hs; [|done].
  destruct (containsProfanity text).
  { unfold bind. rewrite (callSendText_some _ f) by done.
    by destruct (f _ _ _). }
  assert (forall c args,
            polls_ok (POLLS
              ((try_catch (call env c from args)
                  (fun _ =>
                     emit ConsoleError ;;
                     try_catch (callSendText env from handler_apology)
                               (fun _ => ret tt)) ;; ret true) w).2))
    as Hdirect.
  { intros c args0. pose proof (call_ok c from args0 w Hok) as Hc.
    unfold bind, try_catch, emit.
    destruct (call env c from args0 w) as [[[]|e] w']; [done|].
    cbv beta iota. rewrite (callSendText_some _ f) by done.
    by destruct (f _ _ _). }
  assert (forall c args,
            polls_ok (POLLS
              ((try_catch (call env c from args)
                  (fun _ => emit ConsoleError) ;; ret true) w).2))
    as Hsel.
  { intros c args0. pose proof (call_ok c from args0 w Hok) as Hc.
    unfold bind, try_catch, emit.
    by destruct (call env c from args0 w) as [[[]|e] w']. }
  assert (forall t, polls_ok (POLLS ((callSendText env from t ;; ret true) w).2))
    as Hsend.
  { intros t. unfold bind. rewrite (callSendText_some _ f) by done.
    by destruct (f _ _ _). }
  destruct (HANDLERS (cmd parsed)) as [c|]; [apply Hdirect|].
  destruct (JS.startsWith _ _); [|apply Hsend].
  destruct (find _ _) as [target|]; [|apply Hsend].
  destruct (HANDLERS _) as [c|]; [apply Hsel|apply Hsend].
Qed.

(** So every state the dispatcher can reach keeps the invariant. *)
Lemma route_run_ok (msgs : list (jsstring * jsstring)) (w : World) :
  polls_ok (POLLS w) -> polls_ok (POLLS (route_run env msgs w)).
Proof.
  unfold route_run. revert w.
  induction msgs as [|m msgs IH]; intros w Hok; simpl; [done|].
  apply IH. by apply handleCommand_ok.
Qed.

End Dispatch.

(** * More properties of the code *)

(** ** The session store over sequences of appends *)

(** X1: with a cap of one turn or more, after any sequence of appends to an
    empty store no history holds more turns than the cap, the system
    message apart. *)
Theorem history_never_exceeds_cap
    (maxMessages : Z) (ops : list StoreOp) (u : jsstring) (s : Session) :
  1 <= maxMessages ->
  store_run maxMessages ops ∅ !! u = Some s ->
  Z.of_nat (length (messages s)) - 1 <= maxMessages.
Proof. intros Hc Hs. exact (store_run_within_cap maxMessages ops Hc u s Hs). Qed.

Lemma history_never_exceeds_cap_witness :
  Z.of_nat
    (length
       (messages
          (mkSession
             [SYSTEM; mkMessage assistant (js "b"); mkMessage user (js "c")]
             3))) - 1 <= 2.
Proof.
  apply (history_never_exceeds_cap 2
           [AppendUser 1 (js "U1") (js "a");
            AppendAssistant 2 (js "U1") (js "b");
            AppendUser 3 (js "U1") (js "c")] (js "U1")).
  - lia.
  - vm_compute. reflexivity.
Defined.

(** X2: whatever the cap, after any sequence of appends to an empty store
    every history starts with the persona preamble, and no other message of
    it has the system role. *)
Theorem history_starts_with_preamble
    (maxMessages : Z) (ops : list StoreOp) (u : jsstring) (s : Session) :
  store_run maxMessages ops ∅ !! u = Some s ->
  exists rest, messages s = SYSTEM :: rest
               /\ Forall (fun m => role m <> system) rest.
Proof. intros Hs. exact (store_run_system_first maxMessages ops u s Hs). Qed.

Lemma history_starts_with_preamble_witness :
  exists rest,
    messages (mkSession [SYSTEM; mkMessage user (js "a")] 1) = SYSTEM :: rest
    /\ Forall (fun m => role m <> system) rest.
Proof.
  apply (history_starts_with_preamble 0 [AppendUser 1 (js "U1") (js "a")]
           (js "U1")).
  vm_compute. reflexivity.
Defined.

Lemma append_newest_is_last_aux
    (maxMessages now : Z) (r : Role) (u text : jsstring)
    (store : gmap jsstring Session) :
  0 <= maxMessages -> text <> [] ->
  last (history (SessionStore.append maxMessages r now u text store) u)
  = Some (mkMessage r text).
Proof.
  intros Hc Ht. unfold history. rewrite append_lookup by done.
  by apply trim_keeps_last.
Qed.

(** X3: an append of a text that is not empty, with a cap that is not
    negative, leaves that text as the last message of the user's history,
    under the role of the call, and sets [lastSeen] to the time of the
    call. *)
Theorem append_newest_is_last
    (maxMessages now : Z) (r : Role) (u text : jsstring)
    (store : gmap jsstring Session) :
  0 <= maxMessages -> text <> [] ->
  last (history (SessionStore.append maxMessages r now u text store) u)
  = Some (mkMessage r text)
  /\ lastSeen <$> SessionStore.append maxMessages r now u text store !! u
     = Some now.
Proof.
  intros Hc Ht. unfold history. rewrite append_lookup by done. split.
  - by apply trim_keeps_last.
  - reflexivity.
Qed.

Lemma append_newest_is_last_witness :
  last (history (SessionStore.append 0 assistant 9 (js "U1") (js "hello") ∅)
          (js "U1"))
  = Some (mkMessage assistant (js "hello"))
  /\ lastSeen <$> SessionStore.append 0 assistant 9 (js "U1") (js "hello") ∅
                    !! js "U1"
     = Some 9.
Proof.
  apply (append_newest_is_last 0 9 assistant (js "U1") (js "hello") ∅).
  - lia.
  - discriminate.
Defined.

(** X4: an append for one user changes the session of no other user. *)
Theorem append_leaves_other_sessions
    (maxMessages now : Z) (u u' text : jsstring)
    (store : gmap jsstring Session) :
  u <> u' ->
  SessionStore.appendUserMessage maxMessages now u text store !! u'
  = store !! u'
  /\ SessionStore.appendAssistantMessage maxMessages now u text store !! u'
     = store !! u'.
Proof. intros Hne. split; by apply append_lookup_ne. Qed.

Lemma append_leaves_other_sessions_witness :
  SessionStore.appendUserMessage 12 5 (js "U1") (js "hi")
    {[ js "U2" := mkSession [SYSTEM] 1 ]} !! js "U2"
  = ({[ js "U2" := mkSession [SYSTEM] 1 ]} : gmap jsstring Session) !! js "U2"
  /\ SessionStore.appendAssistantMessage 12 5 (js "U1") (js "hi")
       {[ js "U2" := mkSession [SYSTEM] 1 ]} !! js "U2"
     = ({[ js "U2" := mkSession [SYSTEM] 1 ]} : gmap jsstring Session)
         !! js "U2".
Proof.
  apply (append_leaves_other_sessions 12 5 (js "U1") (js "U2") (js "hi")).
  discriminate.
Defined.

(** ** The periodic cleanup *)

Lemma sweep_lookup_aux
    (ttlMinutes now : Z) (store : gmap jsstring Session) (u : jsstring)
    (s : Session) :
  Cleanup.sweep (Some ttlMinutes) now store !! u = Some s
  <-> store !! u = Some s /\ now - lastSeen s <= ttlMinutes * 60 * 1000.
Proof.
  unfold Cleanup.sweep, Cleanup.ttlMs. rewrite map_lookup_filter_Some.
  simpl. split; intros [H1 H2]; (split; [done|lia]).
Qed.

(** X5: after a cleanup the store holds exactly the sessions that were last
    seen no longer ago than the time to live, each as it was. *)
Theorem sweep_keeps_recent_sessions
    (ttlMinutes now : Z) (store : gmap jsstring Session) (u : jsstring)
    (s : Session) :
  Cleanup.sweep (Some ttlMinutes) now store !! u = Some s
  <-> store !! u = Some s /\ now - lastSeen s <= ttlMinutes * 60 * 1000.
Proof. apply sweep_lookup_aux. Qed.

(** X6: with a cap that is not negative, a session that got an append at
    [t0] is kept by a cleanup that runs up to [ttlMs] later and deleted by
    one that runs after that; and the first append after the deletion starts
    the history again from the preamble. *)
Theorem sweep_after_append
    (maxMessages ttlMinutes t0 early late t1 : Z) (r : Role)
    (u text text' : jsstring) (store : gmap jsstring Session) :
  0 <= maxMessages -> text <> [] -> text' <> [] ->
  early - t0 <= Cleanup.ttlMs ttlMinutes ->
  Cleanup.ttlMs ttlMinutes < late - t0 ->
  Cleanup.sweep (Some ttlMinutes) early
    (SessionStore.append maxMessages r t0 u text store) !! u
  = SessionStore.append maxMessages r t0 u text store !! u
  /\ Cleanup.sweep (Some ttlMinutes) late
       (SessionStore.append maxMessages r t0 u text store) !! u = None
  /\ history
       (SessionStore.appendUserMessage maxMessages t1 u text'
          (Cleanup.sweep (Some ttlMinutes) late
             (SessionStore.append maxMessages r t0 u text store))) u
     = [SYSTEM; mkMessage user text'].
Proof.
  intros Hc Ht Ht' Hearly Hlate.
  assert (exists s, SessionStore.append maxMessages r t0 u text store !! u
                    = Some s /\ lastSeen s = t0) as (s & Hs & Hl).
  { rewrite append_lookup by done. eauto. }
  assert (Cleanup.sweep (Some ttlMinutes) late
            (SessionStore.append maxMessages r t0 u text store) !! u = None)
    as Hnone.
  { unfold Cleanup.sweep. apply map_lookup_filter_None. right.
    intros s' Hs'. rewrite Hs in Hs'. injection Hs' as <-.
    simpl. rewrite Hl. intros Hk. by apply Hk. }
  split; [|split; [done|]].
  - rewrite Hs. apply sweep_lookup_aux.
    unfold Cleanup.ttlMs in Hearly. split; [done|lia].
  - unfold history, SessionStore.appendUserMessage.
    rewrite append_lookup by done. rewrite Hnone.
    unfold SessionStore._trim, JS.slice_from.
    cbn [messages app take drop length].
    assert (Z.to_nat
              (if - maxMessages <? 0
               then Z.max (Z.of_nat 1 + - maxMessages) 0
               else Z.min (- maxMessages) (Z.of_nat 1)) = 0%nat) as ->.
    { destruct (- maxMessages <? 0) eqn:E; lia. }
    reflexivity.
Qed.

Lemma sweep_after_append_witness :
  Cleanup.sweep (Some 60) 3599999
    (SessionStore.append 12 user 0 (js "U1") (js "hi") ∅) !! js "U1"
  = SessionStore.append 12 user 0 (js "U1") (js "hi") ∅ !! js "U1"
  /\ Cleanup.sweep (Some 60) 3600001
       (SessionStore.append 12 user 0 (js "U1") (js "hi") ∅) !! js "U1"
     = None
  /\ history
       (SessionStore.appendUserMessage 12 7 (js "U1") (js "again")
          (Cleanup.sweep (Some 60) 3600001
             (SessionStore.append 12 user 0 (js "U1") (js "hi") ∅)))
       (js "U1")
     = [SYSTEM; mkMessage user (js "again")].
Proof.
  apply (sweep_after_append 12 60 0 3599999 3600001 7 user (js "U1")
           (js "hi") (js "again") ∅);
    [lia | discriminate | discriminate | vm_compute; discriminate
    | vm_compute; reflexivity].
Defined.

(** ** White space at the ends of a text *)

Lemma trimStart_head (s : jsstring) :
  match JS.trimStart s with
  | [] => True
  | c :: _ => JS.isWhite c = false
  end.
Proof.
  induction s as [|c s IH]; simpl; [done|].
  destruct (JS.isWhite c) eqn:E; done.
Qed.

Lemma trimStart_fixed (s : jsstring) :
  match s with [] => True | c :: _ => JS.isWhite c = false end ->
  JS.trimStart s = s.
Proof. destruct s as [|c s]; simpl; [done|]. by intros ->. Qed.

Lemma trimStart_split (s : jsstring) :
  exists w, s = w ++ JS.trimStart s /\ blank w.
Proof.
  induction s as [|c s (w & Hw & Hb)]; simpl.
  - exists []. split; [done|constructor].
  - destruct (JS.isWhite c) eqn:E.
    + exists (c :: w). split; [simpl; by f_equal|by constructor].
    + exists []. split; [done|constructor].
Qed.

(** White space in front of a text that starts with another code unit is
    all that [trimStart] takes. *)
Lemma trimStart_app (w s : jsstring) :
  blank w ->
  match s with [] => True | c :: _ => JS.isWhite c = false end ->
  JS.trimStart (w ++ s) = s.
Proof.
  intros Hw Hs. induction Hw as [|c w Hc Hw IH]; simpl.
  - by apply trimStart_fixed.
  - by rewrite Hc.
Qed.

Lemma last_rev {A} (l : list A) : last (rev l) = head l.
Proof. destruct l as [|x l]; simpl; [done|]. apply last_snoc. Qed.

Lemma trimEnd_split (s : jsstring) :
  exists w, s = JS.trimEnd s ++ w /\ blank w.
Proof.
  destruct (trimStart_split (rev s)) as (w & Hw & Hb).
  exists (rev w). split.
  - unfold JS.trimEnd. rewrite <- rev_app_distr, <- Hw. by rewrite rev_involutive.
  - unfold blank in *. by apply Forall_rev.
Qed.

Lemma trimEnd_last (s : jsstring) (c : N) :
  last (JS.trimEnd s) = Some c -> JS.isWhite c = false.
Proof.
  unfold JS.trimEnd. rewrite last_rev.
  pose proof (trimStart_head (rev s)) as H.
  destruct (JS.trimStart (rev s)); simpl; [done|]. by intros [= <-].
Qed.

Lemma trimEnd_fixed (s : jsstring) :
  (forall c, last s = Some c -> JS.isWhite c = false) -> JS.trimEnd s = s.
Proof.
  intros H. unfold JS.trimEnd. rewrite trimStart_fixed.
  - apply rev_involutive.
  - destruct (rev s) as [|c r] eqn:E; [done|]. apply H.
    rewrite <- (rev_involutive s), E, last_rev. done.
Qed.

Lemma trim_head (s : jsstring) :
  match JS.trim s with
  | [] => True
  | c :: _ => JS.isWhite c = false
  end.
Proof.
  unfold JS.trim. pose proof (trimStart_head s) as H.
  destruct (trimEnd_split (JS.trimStart s)) as (w & Hw & _).
  destruct (JS.trimEnd (JS.trimStart s)) as [|c r]; [done|].
  rewrite Hw in H. exact H.
Qed.

Lemma trim_last (s : jsstring) (c : N) :
  last (JS.trim s) = Some c -> JS.isWhite c = false.
Proof. apply trimEnd_last. Qed.

(** A text that was trimmed has nothing left to trim. *)
Lemma trim_idem (s : jsstring) : JS.trim (JS.trim s) = JS.trim s.
Proof.
  unfold JS.trim at 1.
  rewrite (trimStart_fixed (JS.trim s)) by apply trim_head.
  apply trimEnd_fixed, trim_last.
Qed.

(** ** The completion client and the webhook, on a response with content *)

(** X7: a reply of [generateReply] has no white space at either end: to
    trim it again changes nothing. *)
Theorem generateReply_is_trimmed
    (post : list Message -> OpenAI.AxiosResult) (msgs : list Message)
    (reply : jsstring) :
  OpenAI.generateReply post msgs = Normal reply ->
  JS.trim reply = reply.
Proof.
  unfold OpenAI.generateReply.
  destruct (post msgs) as [|[c|]]; [done| |done].
  destruct (negb (JS.truthy c)); [done|].
  intros [= <-]. apply trim_idem.
Qed.

Lemma generateReply_is_trimmed_witness :
  JS.trim (js "Hello!") = js "Hello!".
Proof.
  apply (generateReply_is_trimmed
           (fun _ => OpenAI.Responded (Some (js "  Hello! ")))
           [SYSTEM] (js "Hello!")).
  vm_compute. reflexivity.
Defined.

(** X8: when the completion service answers with a content that is more
    than white space, the webhook sends the trimmed content and records it
    as the assistant's turn, the last of the history (for a cap that is not
    negative). The completion logs nothing; the one thing logged is the
    failure of the send, when the send of the reply is rejected. *)
Theorem completion_success_is_recorded
    (maxMessages : Z) (post : list Message -> OpenAI.AxiosResult)
    (clock : nat -> Z) (sendTextMessage : jsstring -> jsstring -> bool)
    (from userText mtype c : jsstring) (store : gmap jsstring Session) :
  0 <= maxMessages ->
  post (Webhook.record_user maxMessages clock from userText mtype store).2
  = OpenAI.Responded (Some c) ->
  JS.trim c <> [] ->
  Webhook.reply_sent
    (Webhook.on_message maxMessages post clock sendTextMessage from userText
       mtype store)
  = JS.trim c
  /\ last (history
             (Webhook.store_after
                (Webhook.on_message maxMessages post clock sendTextMessage
                   from userText mtype store)) from)
     = Some (mkMessage assistant (JS.trim c))
  /\ Webhook.logged
       (Webhook.on_message maxMessages post clock sendTextMessage from
          userText mtype store)
     = if sendTextMessage from (JS.trim c) then []
       else [Webhook.SendFailure].
Proof.
  intros Hc Hpost Hne. unfold Webhook.on_message.
  destruct (Webhook.record_user _ _ _ _ _ _) as [store2 convo].
  simpl in Hpost. unfold OpenAI.generateReply. rewrite Hpost.
  destruct c as [|x c]; [done|]. cbn [JS.truthy negb].
  cbn [Webhook.reply_sent Webhook.store_after Webhook.logged].
  split; [done|]. split; [|done].
  unfold SessionStore.appendAssistantMessage.
  by apply append_newest_is_last_aux.
Qed.

Lemma completion_success_is_recorded_witness :
  Webhook.reply_sent
    (Webhook.on_message 12 (fun _ => OpenAI.Responded (Some (js " Hi! ")))
       Z.of_nat (fun _ _ => false) (js "15550001") (js "hello") (js "text")
       ∅)
  = js "Hi!"
  /\ last (history
             (Webhook.store_after
                (Webhook.on_message 12
                   (fun _ => OpenAI.Responded (Some (js " Hi! ")))
                   Z.of_nat (fun _ _ => false) (js "15550001") (js "hello")
                   (js "text") ∅))
             (js "15550001"))
     = Some (mkMessage assistant (js "Hi!"))
  /\ Webhook.logged
       (Webhook.on_message 12 (fun _ => OpenAI.Responded (Some (js " Hi! ")))
          Z.of_nat (fun _ _ => false) (js "15550001") (js "hello")
          (js "text") ∅)
     = [Webhook.SendFailure].
Proof.
  apply (completion_success_is_recorded 12
           (fun _ => OpenAI.Responded (Some (js " Hi! "))) Z.of_nat
           (fun _ _ => false) (js "15550001") (js "hello") (js "text")
           (js " Hi! ") ∅).
  - lia.
  - reflexivity.
  - vm_compute. discriminate.
Defined.

(** X9: when the completion service answers with a content that is white
    space only, [generateReply] does not throw: the webhook gives the empty
    text to [sendTextMessage] as the reply, not the apology, and records no
    assistant turn: the store is what the append of the user's message made
    of it. The completion logs nothing; the one thing logged is the failure
    of the send, when the send of the empty text is rejected. *)
Theorem blank_completion_sends_empty_reply
    (maxMessages : Z) (post : list Message -> OpenAI.AxiosResult)
    (clock : nat -> Z) (sendTextMessage : jsstring -> jsstring -> bool)
    (from userText mtype c : jsstring) (store : gmap jsstring Session) :
  post (Webhook.record_user maxMessages clock from userText mtype store).2
  = OpenAI.Responded (Some c) ->
  c <> [] -> JS.trim c = [] ->
  Webhook.on_message maxMessages post clock sendTextMessage from userText
    mtype store
  = Webhook.mkOutcome
      (SessionStore.appendUserMessage maxMessages (clock 0%nat) from
         (if JS.truthy (JS.trim userText) then JS.trim userText
          else js "[" ++ mtype ++ js " message received]") store)
      []
      (if sendTextMessage from [] then [] else [Webhook.SendFailure]).
Proof.
  intros Hpost Hne Hblank.
  rewrite <- recorded_text_spec, <- record_user_store.
  unfold Webhook.on_message.
  destruct (Webhook.record_user _ _ _ _ _ _) as [store2 convo].
  simpl in Hpost. unfold OpenAI.generateReply. rewrite Hpost.
  destruct c as [|x c]; [done|]. cbn [JS.truthy negb]. rewrite Hblank.
  reflexivity.
Qed.

Lemma blank_completion_sends_empty_reply_witness :
  Webhook.on_message 12 (fun _ => OpenAI.Responded (Some (js "  ")))
    Z.of_nat (fun _ _ => false) (js "15550001") (js "hello") (js "text") ∅
  = Webhook.mkOutcome
      (SessionStore.appendUserMessage 12 0 (js "15550001") (js "hello") ∅)
      [] [Webhook.SendFailure].
Proof.
  apply (blank_completion_sends_empty_reply 12
           (fun _ => OpenAI.Responded (Some (js "  "))) Z.of_nat
           (fun _ _ => false) (js "15550001") (js "hello") (js "text")
           (js "  ") ∅).
  - reflexivity.
  - discriminate.
  - reflexivity.
Defined.

(** ** The pieces of a command *)

Lemma split_go_no_white (s : jsstring) (inws : bool) (cur : jsstring) :
  no_white cur -> Forall no_white (JS.split_go inws cur s).
Proof.
  revert inws cur. induction s as [|c s IH]; intros inws cur Hcur; simpl.
  - by constructor.
  - destruct (JS.isWhite c) eqn:E.
    + destruct inws; [by apply IH|].
      constructor; [done|]. apply IH. constructor.
    + apply IH. apply Forall_app. split; [done|]. by constructor.
Qed.

Lemma ends_well_tail (c : N) (s : jsstring) :
  ends_well (c :: s) -> ends_well s.
Proof.
  intros H x Hx. apply H. destruct s; [done|]. by rewrite last_cons_cons.
Qed.

(** Between two runs of white space, and after the last one when the text
    does not end with white space, the pieces are not empty. *)
Lemma split_go_not_empty (s : jsstring) (inws : bool) (cur : jsstring) :
  ends_well s ->
  (if inws then s <> [] else cur <> []) ->
  Forall (fun a => a <> []) (JS.split_go inws cur s).
Proof.
  revert inws cur. induction s as [|c s IH]; intros inws cur He Hst; simpl.
  - destruct inws; [done|]. by constructor.
  - assert (JS.isWhite c = true -> s <> []) as Hs.
    { intros Hc ->. specialize (He c eq_refl). congruence. }
    apply ends_well_tail in He.
    destruct (JS.isWhite c) eqn:E.
    + destruct inws.
      * apply IH; [done|]. by apply Hs.
      * constructor; [done|]. apply IH; [done|]. by apply Hs.
    + apply IH; [done|]. by destruct cur.
Qed.

Lemma split_go_args_not_empty (s cur : jsstring) :
  ends_well s ->
  Forall (fun a => a <> []) (drop 1 (JS.split_go false cur s)).
Proof.
  revert cur. induction s as [|c s IH]; intros cur He; simpl.
  - constructor.
  - assert (JS.isWhite c = true -> s <> []) as Hs.
    { intros Hc ->. specialize (He c eq_refl). congruence. }
    apply ends_well_tail in He.
    destruct (JS.isWhite c) eqn:E.
    + simpl. rewrite drop_0. apply split_go_not_empty; [done|]. by apply Hs.
    + by apply IH.
Qed.

Lemma lower1_no_white (c : N) :
  JS.isWhite c = false -> no_white (JS.lower1 c).
Proof.
  intros Hc. unfold JS.lower1.
  destruct ((65 <=? c) && (c <=? 90))%N eqn:E1.
  - apply andb_true_iff in E1 as [H1 H2].
    apply N.leb_le in H1, H2. constructor; [|constructor].
    unfold JS.isWhite.
    repeat match goal with
           | |- context [(?a <=? ?b)%N] =>
               destruct (N.leb_spec a b); try lia
           | |- context [(?a =? ?b)%N] =>
               destruct (N.eqb_spec a b); try lia
           end; reflexivity.
  - destruct (c =? 8490)%N; [repeat constructor|].
    destruct (c =? 304)%N; [repeat constructor|].
    by repeat constructor.
Qed.

Lemma toLowerCase_no_white (s : jsstring) :
  no_white s -> no_white (JS.toLowerCase s).
Proof.
  induction 1 as [|c s Hc Hs IH]; simpl; [constructor|].
  apply Forall_app. split; [by apply lower1_no_white|done].
Qed.

Lemma lower1_not_upper (c : N) :
  Forall (fun x => ~ (65 <= x <= 90)%N) (JS.lower1 c).
Proof.
  unfold JS.lower1.
  destruct ((65 <=? c) && (c <=? 90))%N eqn:E1.
  - apply andb_true_iff in E1 as [H1 H2]. apply N.leb_le in H1, H2.
    constructor; [lia|constructor].
  - destruct (c =? 8490)%N; [repeat constructor; lia|].
    destruct (c =? 304)%N; [repeat constructor; lia|].
    constructor; [|constructor].
    apply andb_false_iff in E1 as [H|H]; apply N.leb_gt in H; lia.
Qed.

(** X10: the pieces of a parsed command. [raw] is the trimmed text; the
    name has no white space and no letter A-Z; no argument is empty and none
    has white space in it. *)
Theorem parseCommand_pieces (text : jsstring) (parsed : Command) :
  parseCommand text = Some parsed ->
  raw parsed = JS.trim text
  /\ no_white (cmd parsed)
  /\ Forall (fun x => ~ (65 <= x <= 90)%N) (cmd parsed)
  /\ Forall (fun a => a <> [] /\ no_white a) (args parsed).
Proof.
  unfold parseCommand.
  destruct (negb (JS.truthy text)); [done|].
  destruct (negb (JS.startsWith (js "/") (JS.trim text))); [done|].
  intros [= <-]. cbn [raw cmd args].
  pose proof (split_go_no_white (drop 1 (JS.trim text)) false []
                (Forall_nil_2 _)) as Hnw.
  fold (JS.split_ws (drop 1 (JS.trim text))) in Hnw.
  split; [done|]. split; [|split].
  - apply toLowerCase_no_white.
    destruct (JS.split_ws (drop 1 (JS.trim text))) as [|p ps]; simpl.
    + constructor.
    + by inversion Hnw.
  - unfold JS.toLowerCase. generalize (default [] (head (JS.split_ws
                                          (drop 1 (JS.trim text))))).
    intros l. induction l as [|c l IH]; simpl; [constructor|].
    apply Forall_app. split; [apply lower1_not_upper|done].
  - apply Forall_and. split.
    + apply split_go_args_not_empty.
      intros c Hc. apply (trim_last text).
      destruct (JS.trim text) as [|x t]; [done|].
      simpl in Hc. rewrite ?drop_0 in Hc.
      destruct t; [done|]. by rewrite last_cons_cons.
    + by apply Forall_drop.
Qed.

Lemma parseCommand_pieces_witness :
  raw (mkCommand (js "vote") [js "p1"; js "1"] (js "/VOTE  p1 1"))
  = JS.trim (js " /VOTE  p1 1 ")
  /\ no_white (cmd (mkCommand (js "vote") [js "p1"; js "1"]
                      (js "/VOTE  p1 1")))
  /\ Forall (fun x => ~ (65 <= x <= 90)%N)
       (cmd (mkCommand (js "vote") [js "p1"; js "1"] (js "/VOTE  p1 1")))
  /\ Forall (fun a => a <> [] /\ no_white a)
       (args (mkCommand (js "vote") [js "p1"; js "1"] (js "/VOTE  p1 1"))).
Proof.
  apply (parseCommand_pieces (js " /VOTE  p1 1 ")). vm_compute. reflexivity.
Defined.

(** ** The dispatcher: what [handled] tells *)

Lemma then_true_not_false {A} (m : M A) (w : World) :
  ((m ;; ret true) w).1 <> Normal false.
Proof. unfold bind. destruct (m w) as [[a|e] w']; simpl; discriminate. Qed.

(** X11: [handled] is [false] for the texts that are no commands, and for
    them nothing is sent and the state stays as it is; for a command the
    dispatcher ends with [handled = true] or by throwing, never with
    [handled = false]. *)
Theorem handled_false_only_without_sigil
    (env : Env) (from text : jsstring) (w : World) :
  if JS.startsWith (js "/") (JS.trim text)
  then (handleCommand env from text w).1 <> Normal false
  else handleCommand env from text w = (Normal false, w).
Proof.
  destruct (JS.startsWith (js "/") (JS.trim text)) eqn:Hsig.
  - apply parseCommand_is_Some in Hsig as [parsed Hparsed].
    unfold handleCommand. rewrite Hparsed.
    destruct (sendText env) as [f|]; [|simpl; discriminate].
    destruct (containsProfanity text); [apply then_true_not_false|].
    destruct (HANDLERS (cmd parsed)); [apply then_true_not_false|].
    destruct (JS.startsWith _ _); [|apply then_true_not_false].
    destruct (find _ _); [|apply then_true_not_false].
    destruct (HANDLERS _); apply then_true_not_false.
  - unfold handleCommand.
    destruct (parseCommand text) as [parsed|] eqn:Hparsed; [|done].
    assert (is_Some (parseCommand text)) as Hsome by (by eexists).
    apply parseCommand_is_Some in Hsome. congruence.
Qed.

(** The two lemmas on a handler that throws (X27 and X28), at a text. *)
Lemma direct_dispatch_catches_witness :
  handleCommand (fixed_env (existsb is_send) 0 0) (js "15550001")
    (js "/vote") initial
  = (Normal true,
     mkWorld
       (POLLS
          (mkWorld ∅
             [Invoke (Registered H_vote) (js "15550001") [];
              Send (js "15550001") vote_usage false]))
       (trace
          (mkWorld ∅
             [Invoke (Registered H_vote) (js "15550001") [];
              Send (js "15550001") vote_usage false])
        ++ [ConsoleError;
            Send (js "15550001") handler_apology
              ((fun tr _ _ => existsb is_send tr)
                 (trace
                    (mkWorld ∅
                       [Invoke (Registered H_vote) (js "15550001") [];
                        Send (js "15550001") vote_usage false])
                  ++ [ConsoleError])
                 (js "15550001") handler_apology)])).
Proof.
  apply (direct_dispatch_catches (fixed_env (existsb is_send) 0 0)
           (fun tr _ _ => existsb is_send tr) (js "15550001") (js "/vote")
           initial
           (mkWorld ∅
              [Invoke (Registered H_vote) (js "15550001") [];
               Send (js "15550001") vote_usage false])
           (mkCommand (js "vote") [] (js "/vote")) (Registered H_vote)
           Rejection);
    vm_compute; reflexivity.
Defined.

Lemma selection_dispatch_swallows_witness :
  handleCommand (fixed_env (existsb is_send) 0 0) (js "15550001")
    (js "/cmd:vote") initial
  = (Normal true,
     mkWorld
       (POLLS
          (mkWorld ∅
             [Invoke (Registered H_vote) (js "15550001")
                [js "<pollId>"; js "<optionIndex>"];
              Send (js "15550001") vote_usage false]))
       (trace
          (mkWorld ∅
             [Invoke (Registered H_vote) (js "15550001")
                [js "<pollId>"; js "<optionIndex>"];
              Send (js "15550001") vote_usage false])
        ++ [ConsoleError])).
Proof.
  apply (selection_dispatch_swallows (fixed_env (existsb is_send) 0 0)
           (fun tr _ _ => existsb is_send tr) (js "15550001")
           (js "/cmd:vote") initial
           (mkWorld ∅
              [Invoke (Registered H_vote) (js "15550001")
                 [js "<pollId>"; js "<optionIndex>"];
               Send (js "15550001") vote_usage false])
           (mkCommand (js "cmd:vote") [] (js "/cmd:vote"))
           (mkInfo (js "vote") (js "Vote in a poll")
              (js "/vote <pollId> <optionIndex>"))
           (Registered H_vote) Rejection);
    vm_compute; reflexivity.
Defined.

(** ** The menu and the registry *)

Lemma selection_dispatch
    (env : Env) (f : list Event -> jsstring -> jsstring -> bool)
    (from text : jsstring) (w : World) (parsed : Command)
    (target : CommandInfo) (c : Callee) :
  sendText env = Some f ->
  parseCommand text = Some parsed ->
  containsProfanity text = false ->
  HANDLERS (cmd parsed) = None ->
  JS.startsWith (js "cmd:") (cmd parsed) = true ->
  List.find (fun i => bool_decide (id i = drop 4 (cmd parsed))) COMMANDS
  = Some target ->
  HANDLERS (removeFirstSlash (default [] (head (JS.split_ws (usage target)))))
  = Some c ->
  handleCommand env from text w =
  (try_catch (call env c from (drop 1 (JS.split_ws (usage target))))
             (fun _ => emit ConsoleError) ;; ret true) w.
Proof.
  intros Hs Hparsed Hp Hnone Hsel Hfind Hh.
  unfold handleCommand. by rewrite Hparsed, Hs, Hp, Hnone, Hsel, Hfind, Hh.
Qed.

(** X12: every entry of the menu leads to its handler. For an entry of
    [COMMANDS], [HANDLERS] has a handler under its [id], and the text
    [/cmd:<id>] runs that handler on the words that follow the name in the
    [usage] of the entry; so the reply with the description, which the source
    keeps for an entry without handler, is never sent. *)
Theorem menu_entry_reaches_its_handler
    (env : Env) (f : list Event -> jsstring -> jsstring -> bool)
    (from : jsstring) (w : World) (c : CommandInfo) :
  sendText env = Some f ->
  c ∈ COMMANDS ->
  exists h,
    assoc (id c) HANDLERS_own = Some h
    /\ handleCommand env from (js "/cmd:" ++ id c) w =
       (try_catch
          (call env (Registered h) from (drop 1 (JS.split_ws (usage c))))
          (fun _ => emit ConsoleError) ;; ret true) w.
Proof.
  intros Hs Hc. unfold COMMANDS in Hc.
  repeat (apply elem_of_cons in Hc as [-> | Hc];
          [ eexists; split; [vm_compute; reflexivity|];
            eapply (selection_dispatch env f);
            [ exact Hs
            | vm_compute; reflexivity
            | vm_compute; reflexivity
            | vm_compute; reflexivity
            | vm_compute; reflexivity
            | vm_compute; reflexivity
            | vm_compute; reflexivity ]
          | ]).
  by apply elem_of_nil in Hc.
Qed.

Lemma menu_entry_reaches_its_handler_witness :
  exists h,
    assoc (id (mkInfo (js "joke") (js "Tell a joke") (js "/joke")))
      HANDLERS_own = Some h
    /\ handleCommand (fixed_env (fun _ => true) 0 0) (js "15550001")
         (js "/cmd:"
            ++ id (mkInfo (js "joke") (js "Tell a joke") (js "/joke")))
         initial =
       (try_catch
          (call (fixed_env (fun _ => true) 0 0) (Registered h)
             (js "15550001")
             (drop 1
                (JS.split_ws
                   (usage (mkInfo (js "joke") (js "Tell a joke")
                             (js "/joke"))))))
          (fun _ => emit ConsoleError) ;; ret true) initial.
Proof.
  apply (menu_entry_reaches_its_handler (fixed_env (fun _ => true) 0 0)
           (fun _ _ _ => true) (js "15550001") initial
           (mkInfo (js "joke") (js "Tell a joke") (js "/joke"))).
  - reflexivity.
  - unfold COMMANDS. do 11 apply list_elem_of_further.
    apply list_elem_of_here.
Defined.

(** ** The two word filters *)

Lemma lower1_fixed (c : N) : JS.toLowerCase (JS.lower1 c) = JS.lower1 c.
Proof.
  unfold JS.lower1.
  destruct ((65 <=? c) && (c <=? 90))%N eqn:E1.
  - apply andb_true_iff in E1 as [H1 H2]. apply N.leb_le in H1, H2.
    cbn [JS.toLowerCase flat_map]. unfold JS.lower1.
    assert (((65 <=? c + 32) && (c + 32 <=? 90))%N = false) as ->.
    { apply andb_false_iff. right. apply N.leb_gt. lia. }
    assert ((c + 32 =? 8490)%N = false) as -> by (apply N.eqb_neq; lia).
    assert ((c + 32 =? 304)%N = false) as -> by (apply N.eqb_neq; lia).
    reflexivity.
  - destruct (c =? 8490)%N eqn:E2; [reflexivity|].
    destruct (c =? 304)%N eqn:E3; [reflexivity|].
    cbn [JS.toLowerCase flat_map]. unfold JS.lower1.
    by rewrite E1, E2, E3.
Qed.

(** To lower the case twice is to lower it once. *)
Lemma toLowerCase_idem (s : jsstring) :
  JS.toLowerCase (JS.toLowerCase s) = JS.toLowerCase s.
Proof.
  induction s as [|c s IH]; [done|].
  unfold JS.toLowerCase in *. cbn [flat_map].
  rewrite flat_map_app, IH. f_equal. apply lower1_fixed.
Qed.

Lemma toLowerCase_nil (s : jsstring) : JS.toLowerCase s = [] -> s = [].
Proof.
  destruct s as [|c s]; [done|]. unfold JS.toLowerCase. cbn [flat_map].
  unfold JS.lower1.
  destruct ((65 <=? c) && (c <=? 90))%N; [done|].
  destruct (c =? 8490)%N; [done|]. destruct (c =? 304)%N; done.
Qed.

(** What both filters compute, for a list of terms. *)
Lemma word_filter_spec (terms : list jsstring) (text : jsstring) :
  Forall (fun p => p <> []) terms ->
  (if negb (JS.truthy text) then false
   else existsb (fun p => JS.includes (JS.toLowerCase text) p) terms) = true
  <-> exists p pre post,
        p ∈ terms /\ JS.toLowerCase text = pre ++ p ++ post.
Proof.
  intros Hterms. split.
  - destruct (JS.truthy text); cbn [negb]; [|done].
    rewrite existsb_exists. intros (p & Hp & Hi).
    apply includes_spec in Hi as (pre & post & Hi).
    exists p, pre, post. split; [by apply list_elem_of_In|done].
  - intros (p & pre & post & Hp & Hl).
    destruct text as [|c text].
    + simpl in Hl. destruct pre; [|discriminate Hl].
      destruct p; [|discriminate Hl].
      rewrite Forall_forall in Hterms. by specialize (Hterms _ Hp).
    + cbn [JS.truthy negb]. rewrite existsb_exists. exists p.
      split; [by apply list_elem_of_In|].
      apply includes_spec. eauto.
Qed.

Lemma PROFANITY_not_empty : Forall (fun p => p <> []) PROFANITY.
Proof. repeat constructor; discriminate. Qed.

Lemma PROTECTED_not_empty : Forall (fun p => p <> []) PROTECTED.
Proof. repeat constructor; discriminate. Qed.

(** X13: the word filters look for their terms anywhere and in any case: a
    text of which a part is flagged is flagged itself (the part is not
    flagged, or the whole is), and a text is flagged exactly when its
    lower-case form is. *)
Theorem word_filters_anywhere_any_case (text pre post : jsstring) :
  (containsProfanity text = false
   \/ containsProfanity (pre ++ text ++ post) = true)
  /\ (touchesProtectedClass text = false
      \/ touchesProtectedClass (pre ++ text ++ post) = true)
  /\ containsProfanity (JS.toLowerCase text) = containsProfanity text
  /\ touchesProtectedClass (JS.toLowerCase text) = touchesProtectedClass text.
Proof.
  assert (forall terms, Forall (fun p => p <> []) terms ->
            (if negb (JS.truthy text) then false
             else existsb (fun p => JS.includes (JS.toLowerCase text) p) terms)
            = true ->
            (if negb (JS.truthy (pre ++ text ++ post)) then false
             else existsb
                    (fun p => JS.includes
                                (JS.toLowerCase (pre ++ text ++ post)) p)
                    terms) = true) as Hembed.
  { intros terms Hterms H.
    apply word_filter_spec in H as (p & a & b & Hp & Hl); [|done].
    apply word_filter_spec; [done|].
    exists p, (JS.toLowerCase pre ++ a), (b ++ JS.toLowerCase post).
    split; [done|]. unfold JS.toLowerCase in *.
    rewrite !flat_map_app, Hl. by rewrite <- !app_assoc. }
  assert (forall terms,
            (if negb (JS.truthy (JS.toLowerCase text)) then false
             else existsb
                    (fun p => JS.includes
                                (JS.toLowerCase (JS.toLowerCase text)) p)
                    terms)
            = (if negb (JS.truthy text) then false
               else existsb (fun p => JS.includes (JS.toLowerCase text) p)
                      terms)) as Hcase.
  { intros terms. rewrite toLowerCase_idem.
    destruct text as [|c text]; [done|].
    destruct (JS.toLowerCase (c :: text)) eqn:E; [|done].
    by apply toLowerCase_nil in E. }
  split.
  { destruct (containsProfanity text) eqn:E; [right|by left].
    by apply (Hembed PROFANITY PROFANITY_not_empty). }
  split.
  { destruct (touchesProtectedClass text) eqn:E; [right|by left].
    by apply (Hembed PROTECTED PROTECTED_not_empty). }
  split; [apply (Hcase PROFANITY)|apply (Hcase PROTECTED)].
Qed.

(** ** The insult handler *)

Lemma join_contains (sep a : jsstring) (l : list jsstring) :
  a ∈ l -> exists x y, JS.join sep l = x ++ a ++ y.
Proof.
  induction l as [|b l IH]; intros Ha; [by apply elem_of_nil in Ha|].
  apply elem_of_cons in Ha as [<- | Ha].
  - destruct l as [|c l].
    + exists [], []. simpl. by rewrite app_nil_r.
    + exists [], (sep ++ JS.join sep (c :: l)). done.
  - destruct (IH Ha) as (x & y & Hj).
    destruct l as [|c l]; [by apply elem_of_nil in Ha|].
    exists (b ++ sep ++ x), y.
    change (JS.join sep (b :: c :: l)) with (b ++ sep ++ JS.join sep (c :: l)).
    rewrite Hj. by rewrite <- !app_assoc.
Qed.

(** A text that starts with a code unit that is no white space stays whole
    when what comes before it is trimmed. *)
Lemma trimStart_keeps (x m : jsstring) :
  match m with [] => False | c :: _ => JS.isWhite c = false end ->
  exists x', JS.trimStart (x ++ m) = x' ++ m.
Proof.
  intros Hm. induction x as [|c x IH]; simpl.
  - exists []. destruct m as [|d m]; [done|]. simpl. by rewrite Hm.
  - destruct (JS.isWhite c); [done|]. by exists (c :: x).
Qed.

Lemma trimEnd_keeps (m y : jsstring) :
  (exists c, last m = Some c /\ JS.isWhite c = false) ->
  exists y', JS.trimEnd (m ++ y) = m ++ y'.
Proof.
  intros (c & Hl & Hc). unfold JS.trimEnd. rewrite rev_app_distr.
  destruct (trimStart_keeps (rev y) (rev m)) as [y' Hy'].
  { destruct (rev m) as [|d r] eqn:E.
    - apply (f_equal (@rev N)) in E. rewrite rev_involutive in E.
      by rewrite E in Hl.
    - rewrite <- (rev_involutive m), E, last_rev in Hl. simpl in Hl.
      by injection Hl as ->. }
  exists (rev y'). rewrite Hy', rev_app_distr. by rewrite rev_involutive.
Qed.

(** A part of a text that has no white space at its ends is a part of the
    trimmed text. *)
Lemma trim_keeps (x m y : jsstring) :
  m <> [] -> no_white m ->
  exists x' y', JS.trim (x ++ m ++ y) = x' ++ m ++ y'.
Proof.
  intros Hne Hnw. unfold JS.trim.
  destruct (trimStart_keeps x (m ++ y)) as [x' Hx'].
  { destruct m as [|c m]; [done|]. simpl. by inversion Hnw. }
  rewrite Hx'.
  destruct (trimEnd_keeps (x' ++ m) y) as [y' Hy'].
  { destruct (last m) as [c|] eqn:E.
    - exists c. split.
      + rewrite last_app, E. done.
      + unfold no_white in Hnw. rewrite Forall_forall in Hnw.
        apply Hnw. by apply last_Some_elem_of.
    - by apply last_None in E. }
  exists x', y'. rewrite (app_assoc x' m y), Hy'. by rewrite <- app_assoc.
Qed.

Section TrimMap.

(** A map of code units to texts that leaves white space alone and gives
    no white space for other code units: it passes through [trim]. *)
Variable f : N -> jsstring.
Hypothesis f_white : forall c, JS.isWhite c = true -> f c = [c].
Hypothesis f_other :
  forall c, JS.isWhite c = false -> f c <> [] /\ no_white (f c).

Lemma trimStart_flat_map (s : jsstring) :
  JS.trimStart (flat_map f s) = flat_map f (JS.trimStart s).
Proof.
  induction s as [|c s IH]; [done|]. cbn [flat_map JS.trimStart].
  destruct (JS.isWhite c) eqn:E.
  - rewrite (f_white c E). simpl. by rewrite E.
  - destruct (f_other c E) as [Hne Hnw]. cbn [flat_map].
    destruct (f c) as [|d ds]; [done|]. simpl.
    inversion Hnw as [|? ? Hd]. by rewrite Hd.
Qed.

End TrimMap.

Lemma flat_map_rev (f : N -> jsstring) (s : jsstring) :
  rev (flat_map f s) = flat_map (fun c => rev (f c)) (rev s).
Proof.
  induction s as [|c s IH]; [done|]. cbn [flat_map rev].
  rewrite rev_app_distr, IH, flat_map_app. simpl. by rewrite app_nil_r.
Qed.

Lemma lower1_white (c : N) : JS.isWhite c = true -> JS.lower1 c = [c].
Proof.
  intros Hc. unfold JS.lower1.
  destruct ((65 <=? c) && (c <=? 90))%N eqn:E1.
  - apply andb_true_iff in E1 as [H1 H2]. apply N.leb_le in H1, H2.
    exfalso. revert Hc. unfold JS.isWhite.
    repeat match goal with
           | |- context [(?a <=? ?b)%N] =>
               destruct (N.leb_spec a b); try lia
           | |- context [(?a =? ?b)%N] =>
               destruct (N.eqb_spec a b); try lia
           end; discriminate.
  - destruct (c =? 8490)%N eqn:E2.
    { apply N.eqb_eq in E2. subst c. discriminate Hc. }
    destruct (c =? 304)%N eqn:E3.
    { apply N.eqb_eq in E3. subst c. discriminate Hc. }
    reflexivity.
Qed.

Lemma lower1_other (c : N) :
  JS.isWhite c = false -> JS.lower1 c <> [] /\ no_white (JS.lower1 c).
Proof.
  intros Hc. split; [|by apply lower1_no_white].
  unfold JS.lower1.
  destruct ((65 <=? c) && (c <=? 90))%N; [done|].
  destruct (c =? 8490)%N; [done|]. destruct (c =? 304)%N; done.
Qed.

(** The lower case of a trimmed text is the lower case of the text,
    trimmed. *)
Lemma toLowerCase_trim (s : jsstring) :
  JS.toLowerCase (JS.trim s) = JS.trim (JS.toLowerCase s).
Proof.
  unfold JS.trim, JS.toLowerCase.
  rewrite (trimStart_flat_map JS.lower1 lower1_white lower1_other).
  generalize (JS.trimStart s). intros t. unfold JS.trimEnd.
  rewrite flat_map_rev.
  rewrite (trimStart_flat_map (fun c => rev (JS.lower1 c))).
  - rewrite flat_map_rev. apply flat_map_ext.
    intros c. symmetry. apply rev_involutive.
  - intros c Hc. by rewrite lower1_white.
  - intros c Hc. destruct (lower1_other c Hc) as [Hne Hnw]. split.
    + intros E. apply Hne. apply (f_equal (@rev N)) in E.
      by rewrite rev_involutive in E.
    + unfold no_white in *. by apply Forall_rev.
Qed.

Lemma PROTECTED_no_white : Forall no_white PROTECTED.
Proof. repeat constructor. Qed.

Lemma PROFANITY_no_white : Forall no_white PROFANITY.
Proof. repeat constructor. Qed.

(** A term in one of the words of the command is a term in the target. *)
Lemma target_has_term (args : list jsstring) (a p : jsstring) :
  a ∈ args -> p <> [] -> no_white p ->
  JS.includes (JS.toLowerCase a) p = true ->
  insult_target args = JS.trim (JS.join (js " ") args)
  /\ JS.includes (JS.toLowerCase (insult_target args)) p = true.
Proof.
  intros Ha Hne Hnw Hi.
  apply includes_spec in Hi as (pre & post & Hl).
  destruct (join_contains (js " ") a args Ha) as (x & y & Hj).
  assert (exists x' y', JS.toLowerCase (JS.trim (JS.join (js " ") args))
                        = x' ++ p ++ y') as (x' & y' & Ht).
  { rewrite toLowerCase_trim, Hj. unfold JS.toLowerCase in *.
    rewrite !flat_map_app, Hl.
    replace (flat_map JS.lower1 x ++ (pre ++ p ++ post) ++ flat_map JS.lower1 y)
      with ((flat_map JS.lower1 x ++ pre) ++ p ++ (post ++ flat_map JS.lower1 y))
      by (by rewrite <- !app_assoc).
    by apply trim_keeps. }
  assert (insult_target args = JS.trim (JS.join (js " ") args)) as Htarget.
  { unfold insult_target.
    destruct (JS.trim (JS.join (js " ") args)) as [|c t]; [|done].
    simpl in Ht. destruct x'; [|discriminate Ht]. by destruct p. }
  split; [done|]. rewrite Htarget. apply includes_spec. eauto.
Qed.

(** X14: an insult is never made for a target that names a protected
    class: when a word of the command has a protected term in it, in
    whatever case, the one thing [cmd_insult] does is to send the
    refusal. *)
Theorem insult_refused_for_protected_class
    (env : Env) (r : nat) (from : jsstring) (args : list jsstring)
    (w : World) (a p : jsstring) :
  a ∈ args -> p ∈ PROTECTED ->
  JS.includes (JS.toLowerCase a) p = true ->
  cmd_insult env r from args w = callSendText env from insult_refused w.
Proof.
  intros Ha Hp Hi.
  pose proof PROTECTED_not_empty as Hne. pose proof PROTECTED_no_white as Hnw.
  rewrite Forall_forall in Hne, Hnw.
  destruct (target_has_term args a p Ha (Hne _ Hp) (Hnw _ Hp) Hi)
    as [Htarget Hinc].
  unfold cmd_insult.
  assert (touchesProtectedClass (insult_target args) = true) as ->; [|done].
  unfold touchesProtectedClass.
  destruct (insult_target args) as [|c t] eqn:E.
  - apply includes_spec in Hinc as (x & y & Hxy). simpl in Hxy.
    destruct x; [|discriminate Hxy]. destruct p; [|discriminate Hxy].
    by specialize (Hne _ Hp).
  - cbn [JS.truthy negb]. apply existsb_exists. exists p.
    split; [by apply list_elem_of_In|done].
Qed.

Lemma insult_refused_for_protected_class_witness :
  cmd_insult (fixed_env (fun _ => true) 0 0) 1 (js "15550001")
    [js "those"; js "Immigrants"] initial
  = callSendText (fixed_env (fun _ => true) 0 0) (js "15550001")
      insult_refused initial.
Proof.
  apply (insult_refused_for_protected_class (fixed_env (fun _ => true) 0 0)
           1 (js "15550001") [js "those"; js "Immigrants"] initial
           (js "Immigrants") (js "immigrant")).
  - apply list_elem_of_further, list_elem_of_here.
  - unfold PROTECTED. do 10 apply list_elem_of_further.
    apply list_elem_of_here.
  - vm_compute. reflexivity.
Defined.

(** X15: what [cmd_insult] sends is one text, and that text is the refusal,
    the warning, or an insult from the list for a target that neither filter
    flags. *)
Theorem insult_only_for_clean_target
    (env : Env) (r : nat) (from : jsstring) (args : list jsstring)
    (w : World) :
  exists t,
    cmd_insult env r from args w = callSendText env from t w
    /\ (t = insult_refused \/ t = profanity_warning
        \/ exists i, i ∈ INSULTS
             /\ t = insult_target args ++ js ", " ++ i
             /\ touchesProtectedClass (insult_target args) = false
             /\ containsProfanity (insult_target args) = false).
Proof.
  unfold cmd_insult.
  destruct (touchesProtectedClass (insult_target args)) eqn:E1; [eauto|].
  destruct (containsProfanity (insult_target args)) eqn:E2; [eauto|].
  eexists. split; [reflexivity|]. right. right.
  exists (pickOne r INSULTS). split; [|done].
  unfold pickOne, INSULTS. cbn [length].
  assert (r mod 2 < 2)%nat as Hr by (apply Nat.mod_upper_bound; lia).
  destruct (r mod 2)%nat as [|[|n]]; simpl; [| |lia].
  - apply list_elem_of_here.
  - apply list_elem_of_further, list_elem_of_here.
Qed.

(** ** Admins *)

Lemma isAdmin_compares_digits_aux (value jid : jsstring) :
  isAdmin (ADMIN_NUMBERS value) jid = true
  <-> exists e, e ∈ env_list value /\ normalizeBare e = normalizeBare jid.
Proof.
  unfold isAdmin, ADMIN_NUMBERS. rewrite bool_decide_eq_true.
  rewrite list_elem_of_In, in_map_iff. split.
  - intros (e & He & Hin). exists e. by rewrite list_elem_of_In.
  - intros (e & Hin & He). exists e. by rewrite <- list_elem_of_In.
Qed.

(** X16: a sender is an admin exactly when the digits of the identity are
    the digits of an entry of the list of the environment variable; the
    other code units of either play no part. *)
Theorem isAdmin_compares_digits (value jid : jsstring) :
  isAdmin (ADMIN_NUMBERS value) jid = true
  <-> exists e, e ∈ env_list value /\ normalizeBare e = normalizeBare jid.
Proof. apply isAdmin_compares_digits_aux. Qed.

(** X17: an entry of the admin list that has no digit in it makes an admin
    of every sender whose identity has no digit: the entries are filtered
    for emptiness before their other code units are taken out, not
    after. *)
Theorem digitless_admin_entry_admits_digitless_senders
    (value e jid : jsstring) :
  e ∈ env_list value ->
  normalizeBare e = [] -> normalizeBare jid = [] ->
  isAdmin (ADMIN_NUMBERS value) jid = true.
Proof.
  intros He He0 Hj. apply isAdmin_compares_digits_aux. exists e.
  split; [done|congruence].
Qed.

Lemma digitless_admin_entry_admits_digitless_senders_witness :
  isAdmin (ADMIN_NUMBERS (js "15550001, ops-team")) (js "unknown") = true.
Proof.
  apply (digitless_admin_entry_admits_digitless_senders
           (js "15550001, ops-team") (js "ops-team") (js "unknown")).
  - apply (bool_decide_unpack _). vm_compute. exact I.
  - reflexivity.
  - reflexivity.
Defined.

(** ** The broadcast *)


Lemma broadcast_loop_spec
    (env : Env) (f : list Event -> jsstring -> jsstring -> bool)
    (msg : jsstring) (ns : list jsstring) (w : World) :
  sendText env = Some f ->
  exists oks,
    length oks = length ns
    /\ broadcast_loop env msg ns w
       = (Normal oks,
          mkWorld (POLLS w) (trace w ++ broadcast_events msg ns oks)).
Proof.
  intros Hs. revert w. induction ns as [|n ns IH]; intros w.
  - exists []. split; [done|]. simpl. unfold ret. rewrite app_nil_r.
    by destruct w.
  - cbn [broadcast_loop]. unfold bind at 1, try_catch, bind at 1.
    rewrite (callSendText_some _ f) by done.
    set (ok := f (trace w) (filter (fun c => isDigit c = true) n ++ js "@c.us")
                 msg).
    set (w1 := mkWorld (POLLS w)
                 (trace w ++ [Send (filter (fun c => isDigit c = true) n
                                     ++ js "@c.us") msg ok])).
    destruct (IH w1) as (oks & Hlen & Hloop).
    exists (ok :: oks). split; [simpl; by rewrite Hlen|].
    destruct ok; unfold ret, bind; cbv beta iota; rewrite Hloop;
      cbn [POLLS trace w1 broadcast_events]; unfold normalizeBare;
      by rewrite <- app_assoc.
Qed.

(** X18: a broadcast by an admin, with a message and recipients. When the
    notice to the admin cannot be sent, nothing goes out. Otherwise every
    recipient of the list gets one send of the message, in the order of the
    list and under its digits followed by [@c.us]; a send that is rejected
    stops nothing; and the report that ends the broadcast counts the sends
    that resolved and those that did not, which together are the
    recipients. *)
Theorem broadcast_reaches_every_recipient
    (env : Env) (f : list Event -> jsstring -> jsstring -> bool)
    (admins recipients from : jsstring) (args : list jsstring) (w : World) :
  sendText env = Some f ->
  isAdmin (ADMIN_NUMBERS admins) from = true ->
  JS.trim (JS.join (js " ") args) <> [] ->
  env_list recipients <> [] ->
  if f (trace w) from (broadcast_start (length (env_list recipients)))
  then exists oks ok,
      length oks = length (env_list recipients)
      /\ (length oks - length (List.filter negb oks)
          + length (List.filter negb oks) = length (env_list recipients))%nat
      /\ cmd_broadcast env admins recipients from args w
         = (if ok : bool then Normal tt else Throw Rejection,
            mkWorld (POLLS w)
              (trace w
                 ++ [Send from
                       (broadcast_start (length (env_list recipients))) true]
                 ++ broadcast_events (JS.trim (JS.join (js " ") args))
                      (env_list recipients) oks
                 ++ [Send from
                       (broadcast_done
                          (length oks - length (List.filter negb oks))
                          (length (List.filter negb oks))) ok]))
  else cmd_broadcast env admins recipients from args w
       = (Throw Rejection,
          mkWorld (POLLS w)
            (trace w
               ++ [Send from
                     (broadcast_start (length (env_list recipients)))
                     false])).
Proof.
  intros Hs Hadmin Hmsg Hns. unfold cmd_broadcast. rewrite Hadmin.
  cbn [negb].
  destruct (JS.trim (JS.join (js " ") args)) as [|c msg] eqn:Em; [done|].
  cbn [JS.truthy negb].
  destruct (env_list recipients) as [|n ns] eqn:En; [done|].
  destruct (f (trace w) from (broadcast_start (length (n :: ns)))) eqn:Ef;
    unfold bind at 1; rewrite (callSendText_some _ f) by done; rewrite Ef;
    [|reflexivity].
  set (w1 := mkWorld (POLLS w)
               (trace w ++ [Send from (broadcast_start (length (n :: ns)))
                              true])).
  destruct (broadcast_loop_spec env f (c :: msg) (n :: ns) w1 Hs)
    as (oks & Hlen & Hloop).
  unfold bind. rewrite Hloop.
  rewrite (callSendText_some _ f) by done. cbn [POLLS trace w1].
  eexists oks, _. split; [done|]. split.
  - pose proof (filter_length_le negb oks). lia.
  - rewrite <- !app_assoc. reflexivity.
Qed.

Lemma broadcast_reaches_every_recipient_witness :
  if (fun (tr : list Event) (_ _ : jsstring) => negb (length tr =? 1)%nat)
       (trace initial) (js "15550001")
       (broadcast_start (length (env_list (js "111, +222 ,,333"))))
  then exists oks ok,
      length oks = length (env_list (js "111, +222 ,,333"))
      /\ (length oks - length (List.filter negb oks)
          + length (List.filter negb oks)
          = length (env_list (js "111, +222 ,,333")))%nat
      /\ cmd_broadcast
           (mkEnv (Some (fun tr _ _ => negb (length tr =? 1)%nat))
              (fun _ => 0%N) (fun _ => 0%N) (fun _ _ _ => ret tt))
           (js "15550001") (js "111, +222 ,,333") (js "15550001")
           [js "Hello"; js "all"] initial
         = (if ok : bool then Normal tt else Throw Rejection,
            mkWorld (POLLS initial)
              (trace initial
                 ++ [Send (js "15550001")
                       (broadcast_start
                          (length (env_list (js "111, +222 ,,333")))) true]
                 ++ broadcast_events
                      (JS.trim (JS.join (js " ") [js "Hello"; js "all"]))
                      (env_list (js "111, +222 ,,333")) oks
                 ++ [Send (js "15550001")
                       (broadcast_done
                          (length oks - length (List.filter negb oks))
                          (length (List.filter negb oks))) ok]))
  else cmd_broadcast
         (mkEnv (Some (fun tr _ _ => negb (length tr =? 1)%nat))
            (fun _ => 0%N) (fun _ => 0%N) (fun _ _ _ => ret tt))
         (js "15550001") (js "111, +222 ,,333") (js "15550001")
         [js "Hello"; js "all"] initial
       = (Throw Rejection,
          mkWorld (POLLS initial)
            (trace initial
               ++ [Send (js "15550001")
                     (broadcast_start
                        (length (env_list (js "111, +222 ,,333"))))
                     false])).
Proof.
  apply (broadcast_reaches_every_recipient
           (mkEnv (Some (fun tr _ _ => negb (length tr =? 1)%nat))
              (fun _ => 0%N) (fun _ => 0%N) (fun _ _ _ => ret tt))
           (fun tr _ _ => negb (length tr =? 1)%nat)
           (js "15550001") (js "111, +222 ,,333") (js "15550001")
           [js "Hello"; js "all"] initial).
  - reflexivity.
  - vm_compute. reflexivity.
  - vm_compute. discriminate.
  - vm_compute. discriminate.
Defined.

(** A run of the witness: the first recipient's send is rejected, the two
    others resolve, and the report says so. *)
Example broadcast_run :
  trace
    (after
       (cmd_broadcast
          (mkEnv (Some (fun tr _ _ => negb (length tr =? 1)%nat))
             (fun _ => 0%N) (fun _ => 0%N) (fun _ _ _ => ret tt))
          (js "15550001") (js "111, +222 ,,333") (js "15550001")
          [js "Hello"; js "all"])
       initial)
  = [Send (js "15550001") (broadcast_start 3) true;
     Send (js "111@c.us") (js "Hello all") false;
     Send (js "222@c.us") (js "Hello all") true;
     Send (js "333@c.us") (js "Hello all") true;
     Send (js "15550001") (broadcast_done 2 1) true].
Proof. vm_compute. reflexivity. Qed.

(** X19: a sender whose digits are those of no entry of the admin list
    gets the denial from [/broadcast] and from [/stats], and nothing else
    happens: no recipient is written to and no count is told. *)
Theorem admin_handlers_deny_other_senders
    (env : Env) (admins recipients sessions from : jsstring)
    (args : list jsstring) (w : World) :
  (forall e, e ∈ env_list admins -> normalizeBare e <> normalizeBare from) ->
  cmd_broadcast env admins recipients from args w
  = callSendText env from not_authorized w
  /\ cmd_stats env admins sessions from args w
     = callSendText env from not_authorized w.
Proof.
  intros Hno.
  assert (isAdmin (ADMIN_NUMBERS admins) from = false) as Hadmin.
  { apply not_true_is_false. intros H.
    apply isAdmin_compares_digits_aux in H as (e & He & Heq).
    by apply (Hno e). }
  unfold cmd_broadcast, cmd_stats. by rewrite Hadmin.
Qed.

Lemma admin_handlers_deny_other_senders_witness :
  cmd_broadcast (fixed_env (fun _ => true) 0 0) (js "15550001")
    (js "111,222") (js "+1 555 0002") [js "hi"] initial
  = callSendText (fixed_env (fun _ => true) 0 0) (js "+1 555 0002")
      not_authorized initial
  /\ cmd_stats (fixed_env (fun _ => true) 0 0) (js "15550001") (js "12")
       (js "+1 555 0002") [js "hi"] initial
     = callSendText (fixed_env (fun _ => true) 0 0) (js "+1 555 0002")
         not_authorized initial.
Proof.
  apply (admin_handlers_deny_other_senders (fixed_env (fun _ => true) 0 0)
           (js "15550001") (js "111,222") (js "12") (js "+1 555 0002")
           [js "hi"] initial).
  intros e He.
  assert (e = js "15550001") as ->.
  { change (env_list (js "15550001")) with [js "15550001"] in He.
    by apply list_elem_of_singleton in He. }
  vm_compute. discriminate.
Defined.

(** ** Small utilities *)

(** X20: [safeTruncate] gives back a text of [n] code units or fewer as it
    is; of a longer one it keeps the first [n] code units and adds a note
    of 13, so the result is never longer than [n + 13]. *)
Theorem safeTruncate_bounds (s : jsstring) (n : nat) :
  (length (safeTruncate s n) <= n + 13)%nat
  /\ take n (safeTruncate s n) = take n s
  /\ (safeTruncate s n = s \/ (n < length s)%nat).
Proof.
  unfold safeTruncate. destruct (n <? length s)%nat eqn:E.
  - apply Nat.ltb_lt in E. split; [|split].
    + rewrite !length_app, length_take. simpl. lia.
    + rewrite take_app_le by (rewrite length_take; lia).
      rewrite take_take. f_equal. lia.
    + by right.
  - apply Nat.ltb_ge in E. split; [lia|]. split; [done|by left].
Qed.

Lemma filter_digits_only (s : jsstring) :
  Forall (fun c => isDigit c = true) s ->
  filter (fun c => isDigit c = true) s = s.
Proof.
  induction 1 as [|c s Hc Hs IH]; [done|].
  rewrite filter_cons_True by done. by rewrite IH.
Qed.

(** X21: the address the broadcast writes to, the digits of a recipient
    followed by [@c.us], is turned back into those digits by
    [toBareNumber], the function with which [sendText] of
    [whatsapp-utils.js] fills the field [to] of its request. *)
Theorem jid_goes_out_as_its_digits (n : jsstring) :
  toBareNumber (normalizeBare n ++ js "@c.us") = normalizeBare n.
Proof.
  unfold toBareNumber.
  assert (JS.truthy (normalizeBare n ++ js "@c.us") = true) as ->.
  { by destruct (normalizeBare n). }
  cbn [negb]. rewrite filter_app.
  replace (filter (fun c => isDigit c = true) (js "@c.us")) with (@nil N)
    by (vm_compute; reflexivity).
  rewrite app_nil_r. apply filter_digits_only.
  unfold normalizeBare. apply Forall_forall. intros c Hc.
  by apply list_elem_of_filter in Hc as [Hc _].
Qed.

(** ** Polls: what a stored poll looks like *)

Lemma takeWhile_Forall {A} (f : A -> bool) (l : list A) :
  Forall (fun x => f x = true) (JS.takeWhile f l).
Proof.
  induction l as [|x l IH]; simpl; [constructor|].
  destruct (f x) eqn:E; by constructor.
Qed.

Lemma quoted_group (s g rest : jsstring) :
  quoted s = Some (g, rest) -> group_ok g.
Proof.
  unfold quoted. destruct s as [|c s]; [done|].
  destruct (c =? dquote)%N; [|done].
  pose proof (takeWhile_Forall (fun c => negb (c =? dquote)%N) s) as Hall.
  destruct (JS.takeWhile _ s) as [|x body]; [done|].
  destruct (JS.dropWhile _ s) as [|y s2]; [done|].
  intros [= <- <-]. split; [done|].
  intros Hin. rewrite Forall_forall in Hall. specialize (Hall _ Hin).
  by rewrite N.eqb_refl in Hall.
Qed.

Lemma optional_groups_ok (n : nat) (s : jsstring) :
  (length (optional_groups n s) <= n)%nat
  /\ Forall group_ok (optional_groups n s).
Proof.
  revert s. induction n as [|n IH]; intros s; simpl.
  - split; [lia|constructor].
  - unfold ws_quoted.
    destruct (quoted (JS.dropWhile JS.isWhite s)) as [[g s']|] eqn:E.
    + destruct (IH s') as [Hl Hg]. split; [cbn [length]; lia|].
      constructor; [by eapply quoted_group|done].
    + split; [simpl; lia|constructor].
Qed.

(** What the expression of [cmd_poll] can capture: a question and one to
    four options, none of them empty, none with a double quote in it. *)
Lemma poll_match_groups (s q : jsstring) (opts : list jsstring) :
  poll_match s = Some (q, opts) ->
  (1 <= length opts <= 4)%nat /\ group_ok q /\ Forall group_ok opts.
Proof.
  induction s as [|c s IH]; cbn [poll_match].
  - intros H. vm_compute in H. discriminate H.
  - destruct (match_at (c :: s)) as [r|] eqn:E; [|done].
    intros [= ->]. clear IH. unfold match_at in E.
    destruct (quoted (c :: s)) as [[q' s1]|] eqn:E1; [|done].
    unfold ws_quoted in E.
    destruct (quoted (JS.dropWhile JS.isWhite s1)) as [[o s2]|] eqn:E2;
      [|done].
    assert (q' = q) as <- by congruence.
    assert (o :: optional_groups 3 s2 = opts) as <- by congruence.
    destruct (optional_groups_ok 3 s2) as [Hl Hg].
    split; [cbn [length]; lia|]. split; [by eapply quoted_group|].
    constructor; [by eapply quoted_group|done].
Qed.

Lemma fold_empty_votes_dom (l : list nat) (m : gmap Z (list jsstring))
    (i : Z) :
  is_Some (fold_left (fun m i => <[Z.of_nat i := []]> m) l m !! i)
  <-> (exists k, k ∈ l /\ i = Z.of_nat k) \/ is_Some (m !! i).
Proof.
  revert m. induction l as [|n l IH]; intros m; simpl.
  - split; [by right|]. intros [(k & Hk & _)|H]; [|done].
    by apply elem_of_nil in Hk.
  - rewrite IH. split.
    + intros [(k & Hk & ->)|H].
      * left. exists k. split; [by apply list_elem_of_further|done].
      * destruct (decide (Z.of_nat n = i)) as [<-|Hne].
        -- left. exists n. split; [apply list_elem_of_here|done].
        -- rewrite lookup_insert_ne in H by done. by right.
    + intros [(k & Hk & ->)|H].
      * apply elem_of_cons in Hk as [->|Hk].
        -- right. by rewrite lookup_insert_eq.
        -- left. eauto.
      * right. destruct (decide (Z.of_nat n = i)) as [<-|Hne].
        -- by rewrite lookup_insert_eq.
        -- by rewrite lookup_insert_ne.
Qed.

Lemma empty_votes_dom (n : nat) (i : Z) :
  is_Some (empty_votes n !! i) <-> 0 <= i < Z.of_nat n.
Proof.
  unfold empty_votes. rewrite fold_empty_votes_dom, lookup_empty. split.
  - intros [(k & Hk & ->)|[x H]]; [|done].
    apply elem_of_seq in Hk. lia.
  - intros Hi. left. exists (Z.to_nat i). split; [|lia].
    apply elem_of_seq. lia.
Qed.

Lemma tally_from_defined (opts : list jsstring)
    (votes : gmap Z (list jsstring)) (i : nat) :
  (forall k, (i <= k < i + length opts)%nat -> is_Some (votes !! Z.of_nat k)) ->
  is_Some (tally_from i votes opts).
Proof.
  revert i. induction opts as [|o opts IH]; intros i Hdom; simpl; [done|].
  destruct (Hdom i) as [arr ->]; [simpl; lia|].
  destruct (IH (S i)) as [t ->]; [|done].
  intros k Hk. apply Hdom. simpl. lia.
Qed.

Lemma cmd_poll_shape (env : Env) (from : jsstring) (args : list jsstring)
    (w : World) :
  polls_shape (POLLS w) ->
  polls_shape (POLLS (after (cmd_poll env from args) w)).
Proof.
  intros Hok. rewrite cmd_poll_polls.
  destruct (poll_match _) as [[q opts]|] eqn:Em; [|done].
  destruct (length opts <? 2)%nat eqn:El; [done|].
  apply Nat.ltb_ge in El. apply poll_match_groups in Em as [Hl _].
  intros pid p. destruct (decide (generatePollId (DateNow env w)
                                    (random1000 env w) = pid)) as [<-|Hne].
  - rewrite lookup_insert_eq. intros [= <-]. split; cbn [options votes].
    + lia.
    + intros i. apply empty_votes_dom.
  - rewrite lookup_insert_ne by done. apply Hok.
Qed.

Lemma cmd_vote_shape (env : Env) (from : jsstring) (args : list jsstring)
    (w : World) :
  polls_shape (POLLS w) ->
  polls_shape (POLLS (after (cmd_vote env from args) w)).
Proof.
  intros Hok. rewrite cmd_vote_polls.
  destruct (JS.truthy _); [|done].
  destruct (parseInt10_arg _) as [idx|]; [|done].
  destruct (POLLS w !! _) as [poll|] eqn:Hpoll; [|done].
  destruct (Hok _ _ Hpoll) as [Hlen Hdom]. cbn zeta.
  assert (forall i, is_Some ((removeFirst (normalizeBare from) <$> votes poll)
                               !! i)
                    <-> 0 <= i < Z.of_nat (length (options poll))) as Hdom1.
  { intros i. rewrite lookup_fmap, fmap_is_Some. apply Hdom. }
  destruct ((removeFirst (normalizeBare from) <$> votes poll) !! idx)
    as [arr|] eqn:Hidx; intros pid p;
    (destruct (decide (default [] (args !! 0%nat) = pid)) as [<-|Hne];
     [rewrite lookup_insert_eq; intros [= <-]
     | rewrite lookup_insert_ne by done; apply Hok]).
  - split; cbn [with_votes options votes]; [done|]. intros i.
    destruct (decide (idx = i)) as [<-|Hi].
    + rewrite lookup_insert_eq. rewrite <- Hdom1, Hidx. split; eauto.
    + rewrite lookup_insert_ne by done. apply Hdom1.
  - split; cbn [with_votes options votes]; done.
Qed.

Lemma poll_run_shape (env : Env) (cs : list PollCmd) (w : World) :
  polls_shape (POLLS w) -> polls_shape (POLLS (poll_run env cs w)).
Proof.
  unfold poll_run. revert w.
  induction cs as [|c cs IH]; intros w Hok; simpl; [done|].
  apply IH. destruct c; simpl;
    [by apply cmd_poll_shape | by apply cmd_vote_shape].
Qed.

(** X22: after any sequence of poll creations and votes, a stored poll has
    two to four options and an array of voters under the index of each
    option and under nothing else; so the valid indices of a vote are those
    of the options, and the tally of the poll, which reads the array of
    every option, is always defined. *)
Theorem stored_poll_shape
    (env : Env) (cs : list PollCmd) (pid : jsstring) (p : Poll) :
  POLLS (poll_run env cs initial) !! pid = Some p ->
  (2 <= length (options p) <= 4)%nat
  /\ (forall i : Z,
        is_Some (votes p !! i) <-> 0 <= i < Z.of_nat (length (options p)))
  /\ is_Some (tally p).
Proof.
  intros Hp.
  assert (polls_shape (POLLS (poll_run env cs initial))) as Hok.
  { apply poll_run_shape. intros pid' p'. cbn [initial POLLS].
    by rewrite lookup_empty. }
  destruct (Hok _ _ Hp) as [Hlen Hdom]. split; [done|]. split; [done|].
  apply tally_from_defined. intros k Hk. apply Hdom. lia.
Qed.

Lemma stored_poll_shape_witness :
  (2 <= length (options (mkPoll (js "Q") [js "A"; js "B"]
                           (<[1%Z := [js "15550001"]]> (<[0%Z := []]> ∅))
                           (js "15550001"))) <= 4)%nat
  /\ (forall i : Z,
        is_Some (votes (mkPoll (js "Q") [js "A"; js "B"]
                          (<[1%Z := [js "15550001"]]> (<[0%Z := []]> ∅))
                          (js "15550001")) !! i)
        <-> 0 <= i < Z.of_nat
                       (length (options
                                  (mkPoll (js "Q") [js "A"; js "B"]
                                     (<[1%Z := [js "15550001"]]>
                                        (<[0%Z := []]> ∅))
                                     (js "15550001")))))
  /\ is_Some (tally (mkPoll (js "Q") [js "A"; js "B"]
                       (<[1%Z := [js "15550001"]]> (<[0%Z := []]> ∅))
                       (js "15550001"))).
Proof.
  apply (stored_poll_shape (fixed_env (fun _ => true) 1700000000000 42)
           [DoPoll (js "15550001")
              [quote (js "Q"); quote (js "A"); quote (js "B")];
            DoVote (js "15550001") [js "poll_loyw3v28_42"; js "1"]]
           (js "poll_loyw3v28_42")).
  vm_compute. reflexivity.
Defined.

Lemma poll_run_texts (env : Env) (cs : list PollCmd) (w : World) :
  (forall pid p, POLLS w !! pid = Some p ->
                 group_ok (question p) /\ Forall group_ok (options p)) ->
  forall pid p, POLLS (poll_run env cs w) !! pid = Some p ->
                group_ok (question p) /\ Forall group_ok (options p).
Proof.
  unfold poll_run. revert w.
  induction cs as [|c cs IH]; intros w Hok; simpl; [done|].
  apply IH. intros pid p. destruct c as [from args|from args]; simpl.
  - rewrite cmd_poll_polls.
    destruct (poll_match _) as [[q opts]|] eqn:Em; [|apply Hok].
    destruct (length opts <? 2)%nat; [apply Hok|].
    apply poll_match_groups in Em as (_ & Hq & Ho).
    destruct (decide (generatePollId (DateNow env w) (random1000 env w)
                      = pid)) as [<-|Hne].
    + rewrite lookup_insert_eq. by intros [= <-].
    + rewrite lookup_insert_ne by done. apply Hok.
  - rewrite cmd_vote_polls.
    destruct (JS.truthy _); [|apply Hok].
    destruct (parseInt10_arg _) as [idx|]; [|apply Hok].
    destruct (POLLS w !! _) as [poll|] eqn:Hpoll; [|apply Hok].
    cbn zeta.
    destruct ((removeFirst (normalizeBare from) <$> votes poll) !! idx);
      (destruct (decide (default [] (args !! 0%nat) = pid)) as [<-|Hne];
       [rewrite lookup_insert_eq; intros [= <-]; apply (Hok _ _ Hpoll)
       | rewrite lookup_insert_ne by done; apply Hok]).
Qed.

(** X23: the question and the options of a stored poll are what stood
    between double quotes in the command: none of them is empty and none
    has a double quote in it, whatever was sent. *)
Theorem stored_poll_texts
    (env : Env) (cs : list PollCmd) (pid : jsstring) (p : Poll) :
  POLLS (poll_run env cs initial) !! pid = Some p ->
  (question p <> [] /\ dquote ∉ question p)
  /\ Forall (fun o => o <> [] /\ dquote ∉ o) (options p).
Proof.
  apply poll_run_texts. intros pid' p'. cbn [initial POLLS].
  by rewrite lookup_empty.
Qed.

Lemma stored_poll_texts_witness :
  (question (mkPoll (js "Q") [js "A"; js "B"]
               (<[1 := []]> (<[0 := []]> ∅)) (js "15550001")) <> []
   /\ dquote ∉ question (mkPoll (js "Q") [js "A"; js "B"]
                           (<[1 := []]> (<[0 := []]> ∅)) (js "15550001")))
  /\ Forall (fun o => o <> [] /\ dquote ∉ o)
       (options (mkPoll (js "Q") [js "A"; js "B"]
                   (<[1 := []]> (<[0 := []]> ∅)) (js "15550001"))).
Proof.
  apply (stored_poll_texts (fixed_env (fun _ => true) 1700000000000 42)
           [DoPoll (js "15550001")
              [js "x"; quote (js "Q"); quote (js "A"); quote (js "B");
               quote (js "")]]
           (js "poll_loyw3v28_42")).
  vm_compute. reflexivity.
Defined.

(** ** Polls: votes that are turned down *)

(** X24: a vote that names a poll that is not stored is answered with the
    text that the poll was not found; no poll is made or changed. *)
Theorem vote_for_unknown_poll
    (env : Env) (from : jsstring) (args : list jsstring) (w : World)
    (pid : jsstring) (idx : Z) :
  args !! 0%nat = Some pid -> pid <> [] ->
  parseInt10_arg (args !! 1%nat) = Some idx ->
  POLLS w !! pid = None ->
  cmd_vote env from args w = callSendText env from poll_not_found w
  /\ POLLS (after (cmd_vote env from args) w) = POLLS w.
Proof.
  intros Hpid Hne Hidx Hnone.
  assert (cmd_vote env from args w = callSendText env from poll_not_found w)
    as Heq.
  { unfold cmd_vote. rewrite Hpid, Hidx.
    destruct pid as [|c pid]; [done|].
    cbn [default from_option Datatypes.id JS.truthy].
    unfold bind, getPolls. cbv beta iota. by rewrite Hnone. }
  split; [done|]. unfold after. rewrite Heq. apply callSendText_polls.
Qed.

Lemma vote_for_unknown_poll_witness :
  cmd_vote (fixed_env (fun _ => true) 0 0) (js "15550001")
    [js "poll_x_1"; js "0"] initial
  = callSendText (fixed_env (fun _ => true) 0 0) (js "15550001")
      poll_not_found initial
  /\ POLLS (after (cmd_vote (fixed_env (fun _ => true) 0 0) (js "15550001")
                     [js "poll_x_1"; js "0"]) initial)
     = POLLS initial.
Proof.
  apply (vote_for_unknown_poll (fixed_env (fun _ => true) 0 0)
           (js "15550001") [js "poll_x_1"; js "0"] initial (js "poll_x_1") 0);
    [reflexivity | discriminate | reflexivity | reflexivity].
Defined.

(** The two lemmas on a vote for a stored poll (X29 and X30), at a poll of
    two options in which a voter chose option 0. *)
Lemma vote_in_range_moves_voter_witness :
  normalizeBare (js "+1 555 0001")
    ∈ voters
        (after
           (cmd_vote (fixed_env (fun _ => true) 0 0) (js "+1 555 0001")
              [js "p"; js "1"])
           (mkWorld
              {[ js "p" := mkPoll (js "Q") [js "A"; js "B"]
                             (<[1 := []]> (<[0 := [js "15550001"]]> ∅))
                             (js "15550001") ]} []))
        (js "p") 1
  /\ forall j, j <> 1 ->
       normalizeBare (js "+1 555 0001")
         ∉ voters
             (after
                (cmd_vote (fixed_env (fun _ => true) 0 0) (js "+1 555 0001")
                   [js "p"; js "1"])
                (mkWorld
                   {[ js "p" := mkPoll (js "Q") [js "A"; js "B"]
                                  (<[1 := []]> (<[0 := [js "15550001"]]> ∅))
                                  (js "15550001") ]} []))
             (js "p") j.
Proof.
  apply (vote_in_range_moves_voter (fixed_env (fun _ => true) 0 0)
           (js "+1 555 0001") [js "p"; js "1"]
           (mkWorld
              {[ js "p" := mkPoll (js "Q") [js "A"; js "B"]
                             (<[1 := []]> (<[0 := [js "15550001"]]> ∅))
                             (js "15550001") ]} [])
           (js "p") 1
           (mkPoll (js "Q") [js "A"; js "B"]
              (<[1 := []]> (<[0 := [js "15550001"]]> ∅)) (js "15550001"))
           []).
  - intros pid p. cbn [POLLS]. intros Hp.
    apply lookup_singleton_Some in Hp as [_ <-].
    split; cbn [votes].
    + intros i a Hi.
      destruct (decide (i = 1)) as [->|H1].
      * rewrite lookup_insert_eq in Hi. injection Hi as <-. constructor.
      * rewrite lookup_insert_ne in Hi by done.
        destruct (decide (i = 0)) as [->|H0].
        -- rewrite lookup_insert_eq in Hi. injection Hi as <-.
           apply NoDup_singleton.
        -- by rewrite lookup_insert_ne, lookup_empty in Hi.
    + intros v i j a b Hi Hj Ha Hb.
      assert (forall k c, (<[1 := []]> (<[0 := [js "15550001"]]> ∅)
                            : gmap Z (list jsstring)) !! k = Some c ->
                          v ∈ c -> k = 0) as Hone.
      { intros k c Hk Hv.
        destruct (decide (k = 1)) as [->|H1].
        - rewrite lookup_insert_eq in Hk. injection Hk as <-.
          by apply elem_of_nil in Hv.
        - rewrite lookup_insert_ne in Hk by done.
          destruct (decide (k = 0)) as [->|H0]; [done|].
          by rewrite lookup_insert_ne, lookup_empty in Hk. }
      rewrite (Hone i a Hi Ha). by rewrite (Hone j b Hj Hb).
  - reflexivity.
  - discriminate.
  - reflexivity.
  - reflexivity.
  - reflexivity.
Defined.

Lemma vote_out_of_range_retracts_witness :
  cmd_vote (fixed_env (fun _ => true) 0 0) (js "15550001")
    [js "p"; js "-1"]
    (mkWorld
       {[ js "p" := mkPoll (js "Q") [js "A"; js "B"]
                      (<[1 := []]> (<[0 := [js "15550001"]]> ∅))
                      (js "15550001") ]} [])
  = (if (fun (_ : list Event) (_ _ : jsstring) => true)
          (trace
             (mkWorld
                {[ js "p" := mkPoll (js "Q") [js "A"; js "B"]
                               (<[1 := []]> (<[0 := [js "15550001"]]> ∅))
                               (js "15550001") ]} []))
          (js "15550001") invalid_option
     then Normal tt else Throw Rejection,
     mkWorld
       (<[js "p" :=
            with_votes
              (mkPoll (js "Q") [js "A"; js "B"]
                 (<[1 := []]> (<[0 := [js "15550001"]]> ∅)) (js "15550001"))
              (removeFirst (normalizeBare (js "15550001"))
                 <$> votes
                       (mkPoll (js "Q") [js "A"; js "B"]
                          (<[1 := []]> (<[0 := [js "15550001"]]> ∅))
                          (js "15550001")))]>
          (POLLS
             (mkWorld
                {[ js "p" := mkPoll (js "Q") [js "A"; js "B"]
                               (<[1 := []]> (<[0 := [js "15550001"]]> ∅))
                               (js "15550001") ]} [])))
       (trace
          (mkWorld
             {[ js "p" := mkPoll (js "Q") [js "A"; js "B"]
                            (<[1 := []]> (<[0 := [js "15550001"]]> ∅))
                            (js "15550001") ]} [])
        ++ [Send (js "15550001") invalid_option
              ((fun (_ : list Event) (_ _ : jsstring) => true)
                 (trace
                    (mkWorld
                       {[ js "p" := mkPoll (js "Q") [js "A"; js "B"]
                                      (<[1 := []]>
                                         (<[0 := [js "15550001"]]> ∅))
                                      (js "15550001") ]} []))
                 (js "15550001") invalid_option)])).
Proof.
  apply (vote_out_of_range_retracts (fixed_env (fun _ => true) 0 0)
           (fun _ _ _ => true) (js "15550001") [js "p"; js "-1"]
           (mkWorld
              {[ js "p" := mkPoll (js "Q") [js "A"; js "B"]
                             (<[1 := []]> (<[0 := [js "15550001"]]> ∅))
                             (js "15550001") ]} [])
           (js "p") (-1)
           (mkPoll (js "Q") [js "A"; js "B"]
              (<[1 := []]> (<[0 := [js "15550001"]]> ∅)) (js "15550001")));
    [reflexivity | reflexivity | discriminate | reflexivity
    | reflexivity | reflexivity].
Defined.

(** ** Numbers in texts, read back *)

Lemma js_String (c : ascii) (s : string) :
  js (String c s) = N_of_ascii c :: js s.
Proof. reflexivity. Qed.

Lemma uint_digits (d : Decimal.uint) :
  Forall (fun c => isDigit c = true) (js (NilEmpty.string_of_uint d)).
Proof. induction d; simpl; rewrite ?js_String; by constructor. Qed.

Lemma fold_digits_acc (d : Decimal.uint) (acc : positive) :
  fold_left (fun a c => 10 * a + digitValue c)
    (js (NilEmpty.string_of_uint d)) (Z.pos acc)
  = Z.pos (Pos.of_uint_acc d acc).
Proof.
  revert acc. induction d; intros acc; cbn [NilEmpty.string_of_uint];
    rewrite ?js_String; cbn [fold_left Pos.of_uint_acc]; [done|..];
    (rewrite <- IHd; f_equal; unfold digitValue; simpl; lia).
Qed.

Lemma fold_digits (d : Decimal.uint) :
  fold_left (fun a c => 10 * a + digitValue c)
    (js (NilEmpty.string_of_uint d)) 0
  = Z.of_N (Pos.of_uint d).
Proof.
  induction d; cbn [NilEmpty.string_of_uint]; rewrite ?js_String;
    cbn [fold_left Pos.of_uint]; [done | exact IHd |..];
    (cbn [Z.of_N]; rewrite <- fold_digits_acc; f_equal).
Qed.

Lemma takeWhile_all {A} (f : A -> bool) (l : list A) :
  Forall (fun x => f x = true) l -> JS.takeWhile f l = l.
Proof. induction 1 as [|x l Hx Hl IH]; simpl; [done|]. by rewrite Hx, IH. Qed.

(** The text of a number: its digits, after a minus sign when it is
    negative; the digits give back the number. *)
Lemma numToString_shape (z : Z) :
  exists c ds,
    Forall (fun x => isDigit x = true) (c :: ds)
    /\ fold_left (fun a c => 10 * a + digitValue c) (c :: ds) 0 = Z.abs z
    /\ numToString z = (if z <? 0 then [45%N] else []) ++ c :: ds.
Proof.
  destruct z as [|p|p].
  - exists 48%N, []. split; [by repeat constructor|]. done.
  - pose proof (uint_digits (Pos.to_uint p)) as Hd.
    pose proof (fold_digits (Pos.to_uint p)) as Hf.
    rewrite DecimalPos.Unsigned.of_to in Hf.
    pose proof (DecimalPos.Unsigned.to_uint_nonnil p) as Hnn.
    assert (numToString (Z.pos p)
            = js (NilEmpty.string_of_uint (Pos.to_uint p))) as Hs.
    { unfold numToString. cbn [Z.to_int NilZero.string_of_int].
      unfold NilZero.string_of_uint. by destruct (Pos.to_uint p). }
    destruct (js (NilEmpty.string_of_uint (Pos.to_uint p))) as [|c ds] eqn:E.
    + simpl in Hf. discriminate Hf.
    + exists c, ds. done.
  - pose proof (uint_digits (Pos.to_uint p)) as Hd.
    pose proof (fold_digits (Pos.to_uint p)) as Hf.
    rewrite DecimalPos.Unsigned.of_to in Hf.
    pose proof (DecimalPos.Unsigned.to_uint_nonnil p) as Hnn.
    assert (numToString (Z.neg p)
            = 45%N :: js (NilEmpty.string_of_uint (Pos.to_uint p))) as Hs.
    { unfold numToString. cbn [Z.to_int NilZero.string_of_int].
      unfold NilZero.string_of_uint. rewrite js_String.
      by destruct (Pos.to_uint p). }
    destruct (js (NilEmpty.string_of_uint (Pos.to_uint p))) as [|c ds] eqn:E.
    + simpl in Hf. discriminate Hf.
    + exists c, ds. done.
Qed.

Lemma digit_not_special (c : N) :
  isDigit c = true -> JS.isWhite c = false /\ c <> 45%N /\ c <> 43%N.
Proof.
  unfold isDigit. intros H. apply andb_true_iff in H as [H1 H2].
  apply N.leb_le in H1, H2. split; [|lia].
  unfold JS.isWhite.
  repeat match goal with
         | |- context [(?a <=? ?b)%N] => destruct (N.leb_spec a b); try lia
         | |- context [(?a =? ?b)%N] => destruct (N.eqb_spec a b); try lia
         end; reflexivity.
Qed.

Lemma sign_of_digit (c : N) (ds : jsstring) :
  c <> 45%N -> c <> 43%N ->
  match c :: ds with
  | 45%N :: r => (true, r)
  | 43%N :: r => (false, r)
  | _ => (false, c :: ds)
  end = (false, c :: ds).
Proof.
  intros Hm Hp. destruct c as [|p]; [reflexivity|].
  do 6 (try (destruct p as [p|p|]; try reflexivity)); congruence.
Qed.

(** What [parseInt] reads from white space, an optional minus sign, digits
    and something that does not go on with a digit. *)
Lemma parseInt10_reads (neg : bool) (ws rest : jsstring) (c : N)
    (ds : jsstring) :
  blank ws ->
  Forall (fun x => isDigit x = true) (c :: ds) ->
  match rest with [] => True | x :: _ => isDigit x = false end ->
  parseInt10 (ws ++ ((if neg then [45%N] else []) ++ c :: ds) ++ rest)
  = Some (let v := fold_left (fun a c => 10 * a + digitValue c) (c :: ds) 0
          in if neg then - v else v).
Proof.
  intros Hws Hd Hrest.
  assert (isDigit c = true) as Hc by (by inversion Hd).
  destruct (digit_not_special c Hc) as (Hw & Hm & Hp).
  destruct (while_stop isDigit (c :: ds) rest Hd Hrest) as [Htake _].
  cbn [app] in Htake.
  unfold parseInt10. destruct neg; cbn [app].
  - rewrite trimStart_app by done. by rewrite Htake.
  - rewrite trimStart_app by done.
    rewrite (sign_of_digit c (ds ++ rest) Hm Hp). by rewrite Htake.
Qed.

Lemma parseInt10_numToString_aux (z : Z) (ws rest : jsstring) :
  blank ws ->
  match rest with [] => True | c :: _ => isDigit c = false end ->
  parseInt10 (ws ++ numToString z ++ rest) = Some z.
Proof.
  intros Hws Hrest.
  destruct (numToString_shape z) as (c & ds & Hd & Hv & ->).
  rewrite (parseInt10_reads (z <? 0) ws rest c ds Hws Hd Hrest).
  cbv zeta. rewrite Hv. f_equal.
  destruct (Z.ltb_spec z 0); lia.
Qed.

(** X25: a number printed in a text is read back by [parseInt] as that
    number; so the index that the confirmation of a poll or its results
    show for an option is, typed after [/vote], the index of that option.
    White space before the number and whatever follows its digits change
    nothing. The numbers are those that JavaScript holds exactly. *)
Theorem printed_index_is_read_back (z : Z) (ws rest : jsstring) :
  - 2 ^ 53 < z < 2 ^ 53 ->
  blank ws ->
  match rest with [] => True | c :: _ => isDigit c = false end ->
  parseInt10 (ws ++ numToString z ++ rest) = Some z.
Proof. intros _. apply parseInt10_numToString_aux. Qed.

Lemma printed_index_is_read_back_witness :
  parseInt10 (js " " ++ numToString 3 ++ js ".5x") = Some 3.
Proof.
  apply (printed_index_is_read_back 3 (js " ") (js ".5x")).
  - lia.
  - repeat constructor.
  - reflexivity.
Defined.

(** ** The identifier of a poll *)

Lemma digit36_value (d : N) :
  (d < 36)%N ->
  (if (digit36 d <? 58)%N then digit36 d - 48 else digit36 d - 87)%N = d
  /\ digit36 d <> 95%N.
Proof.
  intros Hd. unfold digit36. destruct (N.ltb_spec d 10).
  - assert ((48 + d <? 58)%N = true) as -> by (apply N.ltb_lt; lia).
    split; lia.
  - assert ((87 + d <? 58)%N = false) as -> by (apply N.ltb_ge; lia).
    split; lia.
Qed.

Lemma value36_snoc (ds : jsstring) (c : N) :
  value36 (ds ++ [c])
  = (36 * value36 ds + (if (c <? 58) then c - 48 else c - 87))%N.
Proof. unfold value36. by rewrite fold_left_app. Qed.

(** The digits that [toRadix36] puts before [acc] are digits of base 36,
    and they stand for [n]. *)
Lemma toRadix36_spec (fuel : nat) (n : N) (acc : jsstring) :
  (n < 2 ^ N.of_nat fuel)%N ->
  exists ds,
    toRadix36 fuel n acc = ds ++ acc
    /\ value36 ds = n
    /\ 95%N ∉ ds.
Proof.
  revert n acc. induction fuel as [|fuel IH]; intros n acc Hn.
  - exists []. simpl in *. split; [done|]. split; [|apply not_elem_of_nil].
    unfold value36. simpl. lia.
  - cbn [toRadix36].
    assert (n mod 36 < 36)%N as Hmod by (apply N.mod_lt; lia).
    destruct (digit36_value (n mod 36) Hmod) as [Hval Hno].
    destruct (N.eqb_spec (n / 36) 0) as [Hq|Hq].
    + exists [digit36 (n mod 36)]. split; [done|]. split.
      * unfold value36. cbn [fold_left]. rewrite Hval.
        pose proof (N.div_mod n 36). lia.
      * intros H%list_elem_of_singleton. congruence.
    + destruct (IH (n / 36)%N (digit36 (n mod 36) :: acc))
        as (ds & Hds & Hv & Hu).
      { rewrite Nat2N.inj_succ, N.pow_succ_r' in Hn.
        apply N.Div0.div_lt_upper_bound. lia. }
      exists (ds ++ [digit36 (n mod 36)]). split; [|split].
      * rewrite Hds. by rewrite <- app_assoc.
      * rewrite value36_snoc, Hv, Hval. pose proof (N.div_mod n 36). lia.
      * rewrite elem_of_app. intros [H|H%list_elem_of_singleton];
          [done|congruence].
Qed.

Lemma toString36_spec (n : N) :
  value36 (toString36 n) = n /\ 95%N ∉ toString36 n.
Proof.
  unfold toString36.
  destruct (toRadix36_spec (S (N.to_nat (N.log2 n))) n [])
    as (ds & Hds & Hv & Hu).
  - rewrite Nat2N.inj_succ, N2Nat.id.
    destruct n as [|p]; [done|]. apply N.log2_spec. lia.
  - rewrite Hds, app_nil_r. done.
Qed.

(** Two texts that are cut at their first underscore are cut alike. *)
Lemma cut_at_underscore (a a' b b' : jsstring) :
  95%N ∉ a -> 95%N ∉ a' ->
  a ++ 95%N :: b = a' ++ 95%N :: b' -> a = a' /\ b = b'.
Proof.
  revert a'. induction a as [|c a IH]; intros a' Ha Ha' Heq.
  - destruct a' as [|c' a']; simpl in Heq.
    + by injection Heq as ->.
    + injection Heq as <- _. exfalso. apply Ha'. apply list_elem_of_here.
  - destruct a' as [|c' a']; simpl in Heq.
    + injection Heq as -> _. exfalso. apply Ha. apply list_elem_of_here.
    + injection Heq as -> Heq.
      apply not_elem_of_cons in Ha as [_ Ha].
      apply not_elem_of_cons in Ha' as [_ Ha'].
      destruct (IH a' Ha Ha' Heq) as [-> ->]. done.
Qed.

(** X26: two readings of the clock and of the random number that differ
    give two identifiers that differ; a poll can only take the place of
    another when both read the same. *)
Theorem pollId_differs_with_clock_or_random (now rnd now' rnd' : N) :
  now <> now' \/ rnd <> rnd' ->
  generatePollId now rnd <> generatePollId now' rnd'.
Proof.
  intros Hdiff Heq. unfold generatePollId in Heq.
  apply app_inv_head in Heq.
  destruct (toString36_spec now) as [Hv Hu].
  destruct (toString36_spec now') as [Hv' Hu'].
  apply (cut_at_underscore _ _ _ _ Hu Hu') in Heq as [Ht Hd].
  assert (now = now') as Hnow by congruence.
  assert (rnd = rnd') as Hrnd.
  { pose proof (parseInt10_numToString_aux (Z.of_N rnd) [] []
                  (Forall_nil_2 _) I) as H1.
    pose proof (parseInt10_numToString_aux (Z.of_N rnd') [] []
                  (Forall_nil_2 _) I) as H2.
    cbn [app] in H1, H2. rewrite !app_nil_r in H1, H2.
    rewrite Hd in H1. rewrite H1 in H2. injection H2 as H2. lia. }
  destruct Hdiff; done.
Qed.

Lemma pollId_differs_with_clock_or_random_witness :
  (1700000000000 <> 1700000000001 \/ 42 <> 42)%N
  /\ generatePollId 1700000000000 42 <> generatePollId 1700000000001 42.
Proof.
  assert (1700000000000 <> 1700000000001 \/ 42 <> 42)%N as H
    by (left; discriminate).
  split; [exact H|].
  exact (pollId_differs_with_clock_or_random 1700000000000 42
           1700000000001 42 H).
Defined.
